(** * Convert-to-PNG: the directory-scan / path-mapping / tally pipeline

    A shallow embedding of [convert_images.py] (and of its two single-format
    siblings under [unic_codes/]).  File names are strings, paths are the
    [parts] tuples of [pathlib], the file system is a finite map from paths
    to entry kinds, and the effectful code lives in a state-and-exception
    monad whose state carries the file system and a trace of the calls the
    program makes to the outside world. *)

From Stdlib Require Import ZArith Lia Ascii String Permutation.
From stdpp Require Import base tactics option list strings gmap fin_maps pretty.

Local Open Scope Z_scope.
Local Open Scope nat_scope.

(** ** Pure path arithmetic ([pathlib.PurePath], POSIX flavour) *)

Module PurePath.

(** [PurePath.parts]: the components of a path below a fixed base directory.
    The empty list is the base directory itself, which is its own parent. *)
Abbreviation Path := (list string).

Definition dot : ascii := "."%char.
Definition sep : ascii := "/"%char.

(** [str.rfind('.')]: index of the last dot, [None] for Python's [-1]. *)
Fixpoint rfind_dot (s : string) : option nat :=
  match s with
  | EmptyString => None
  | String c s' =>
      match rfind_dot s' with
      | Some i => Some (S i)
      | None => if Ascii.eqb c dot then Some 0 else None
      end
  end.

(** [name[i:]] and [name[:i]] for [0 <= i]. *)
Fixpoint slice_from (i : nat) (s : string) : string :=
  match i, s with
  | O, _ => s
  | S i', String _ s' => slice_from i' s'
  | S _, EmptyString => EmptyString
  end.

Fixpoint slice_to (i : nat) (s : string) : string :=
  match i, s with
  | S i', String c s' => String c (slice_to i' s')
  | _, _ => EmptyString
  end.

(** [PurePath.name]: the final component, empty for the base directory. *)
Definition name (p : Path) : string := List.last p EmptyString.

(** [PurePath.parent]. *)
Definition parent (p : Path) : Path := removelast p.

(** [PurePath.suffix] of a final component:
    [i = name.rfind('.'); name[i:] if 0 < i < len(name) - 1 else '']. *)
Definition suffix_of (nm : string) : string :=
  match rfind_dot nm with
  | Some i =>
      if (0 <? i) && (i <? String.length nm - 1)
      then slice_from i nm else EmptyString
  | None => EmptyString
  end.

Definition suffix (p : Path) : string := suffix_of (name p).

(** [PurePath.stem] of a final component:
    [name[:i] if 0 < i < len(name) - 1 else name]. *)
Definition stem_of (nm : string) : string :=
  match rfind_dot nm with
  | Some i =>
      if (0 <? i) && (i <? String.length nm - 1)
      then slice_to i nm else nm
  | None => nm
  end.

(** [sep in suffix]. *)
Fixpoint contains_sep (s : string) : bool :=
  match s with
  | EmptyString => false
  | String c s' => Ascii.eqb c sep || contains_sep s'
  end.

Definition startswith_dot (s : string) : bool :=
  match s with
  | String c _ => Ascii.eqb c dot
  | EmptyString => false
  end.

(** The two argument checks at the head of [with_suffix]. *)
Definition invalid_suffix (sfx : string) : bool :=
  contains_sep sfx
  || (negb (String.eqb sfx EmptyString) && negb (startswith_dot sfx))
  || String.eqb sfx ".".

(** [name[:-len(old_suffix)] + suffix], or [name + suffix] when the name has
    no suffix. *)
Definition replace_suffix (nm sfx : string) : string :=
  let old_suffix := suffix_of nm in
  if String.eqb old_suffix EmptyString then nm +:+ sfx
  else slice_to (String.length nm - String.length old_suffix) nm +:+ sfx.

(** [PurePath.with_suffix]; [None] stands for the [ValueError] raised on an
    invalid suffix or an empty name. *)
Definition with_suffix (p : Path) (sfx : string) : option Path :=
  if invalid_suffix sfx then None
  else if String.eqb (name p) EmptyString then None
  else Some (parent p ++ [replace_suffix (name p) sfx]).

(** [PurePath.relative_to]; [None] stands for the [ValueError] raised when
    [other] is not a prefix of the path. *)
Fixpoint relative_to (p other : Path) {struct other} : option Path :=
  match other, p with
  | [], _ => Some p
  | o :: other', c :: p' =>
      if String.eqb c o then relative_to p' other' else None
  | _ :: _, [] => None
  end.

(** [Path(a) / b] for a relative [b]. *)
Definition joinpath (a b : Path) : Path := a ++ b.

(** [str(path)]. *)
Definition path_str (p : Path) : string :=
  match p with
  | [] => "."
  | _ => String.concat "/" p
  end.

(** [fnmatch] as [pathlib] compiles a pattern component on POSIX: [*]
    matches any run of characters (a leading dot included), [?] one
    character, every other character itself, case-sensitively.  Bracket
    classes are not embedded; no pattern built by the program has one. *)
Definition star : ascii := "*"%char.
Definition qmark : ascii := "?"%char.

Fixpoint fnmatch (pat nm : string) : bool :=
  match pat with
  | EmptyString =>
      match nm with EmptyString => true | _ => false end
  | String c pat' =>
      if Ascii.eqb c star then
        (fix skip (n : string) : bool :=
           fnmatch pat' n
           || match n with
              | EmptyString => false
              | String _ n' => skip n'
              end) nm
      else
        match nm with
        | EmptyString => false
        | String d nm' =>
            (Ascii.eqb c qmark || Ascii.eqb c d) && fnmatch pat' nm'
        end
  end.

(** The two flavours of [pathlib]: [PurePosixPath] and [PureWindowsPath]. *)
Inductive flavour := Posix | Windows.

(** What [re.IGNORECASE] identifies among the ASCII characters: a capital
    letter and its small one.  Names written in ASCII are embedded exactly;
    the letters outside ASCII that Unicode folds are not embedded. *)
Definition fold_case (c : ascii) : ascii :=
  let n := nat_of_ascii c in
  if (65 <=? n) && (n <=? 90) then ascii_of_nat (n + 32) else c.

(** One pattern character against one name character: [pathlib] compiles
    the pattern as it is on POSIX and with [re.IGNORECASE] on Windows. *)
Definition same_char (fl : flavour) (c d : ascii) : bool :=
  match fl with
  | Posix => Ascii.eqb c d
  | Windows => Ascii.eqb (fold_case c) (fold_case d)
  end.

(** [fnmatch] as the flavour [fl] of [pathlib] compiles a pattern
    component; [fnmatch] above is its POSIX instance. *)
Fixpoint fnmatch_on (fl : flavour) (pat nm : string) : bool :=
  match pat with
  | EmptyString =>
      match nm with EmptyString => true | _ => false end
  | String c pat' =>
      if Ascii.eqb c star then
        (fix skip (n : string) : bool :=
           fnmatch_on fl pat' n
           || match n with
              | EmptyString => false
              | String _ n' => skip n'
              end) nm
      else
        match nm with
        | EmptyString => false
        | String d nm' =>
            (Ascii.eqb c qmark || same_char fl c d) && fnmatch_on fl pat' nm'
        end
  end.

(** A string without wildcard characters. *)
Fixpoint literal (s : string) : bool :=
  match s with
  | EmptyString => true
  | String c s' => negb (Ascii.eqb c star) && negb (Ascii.eqb c qmark) && literal s'
  end.

(** An extension as the program lists them: a dot followed by at least one
    character, none of them a dot. *)
Definition dotted (ext : string) : Prop :=
  rfind_dot ext = Some 0 /\ 2 <= String.length ext.

End PurePath.

(** ** The outside world: exceptions, file system, trace *)

Module Py.
Import PurePath.

(** The exception classes the program can meet.  [KeyboardInterrupt] stands
    for the classes that derive from [BaseException] only; every other one
    derives from [Exception]. *)
Inductive exn_class :=
| FileExistsError
| FileNotFoundError
| NotADirectoryError
| ValueError
| OtherException
| KeyboardInterrupt.

Definition is_Exception (c : exn_class) : bool :=
  match c with
  | KeyboardInterrupt => false
  | _ => true
  end.

(** An exception object: its class and [str(e)]. *)
Record exn := Exn { exn_cls : exn_class; exn_text : string }.

Inductive outcome (A : Type) :=
| Ret (a : A)
| Raise (e : exn).
Arguments Ret {A} a.
Arguments Raise {A} e.

Inductive kind := File | Dir.

#[global] Instance kind_eq_dec : EqDecision kind.
Proof. solve_decision. Defined.

Abbreviation FS := (gmap (list string) kind).

(** The calls the program makes, in the order it makes them. *)
Inductive event :=
| EMkdir (p : Path)
| EGlob (root : Path) (pattern : string)
| EPrint (line : string)
| EPool (max_workers : Z)
| ESubmit (input_path output_path : Path)
| EShutdown
| EPbar (total : nat)
| EPbarUpdate
| EPbarClose.

Record state := State { fs : FS; trace : list event }.

(** Computations: state passing with exceptions. *)
Definition M (A : Type) : Type := state -> outcome A * state.

Definition ret {A} (a : A) : M A := fun s => (Ret a, s).

Definition raise {A} (e : exn) : M A := fun s => (Raise e, s).

Definition bind {A B} (m : M A) (k : A -> M B) : M B :=
  fun s =>
    match m s with
    | (Ret a, s') => k a s'
    | (Raise e, s') => (Raise e, s')
    end.

Notation "'do' x <- m ; k" := (bind m (fun x => k))
  (at level 10, x pattern, m at level 100, k at level 200).
Notation "m ;; k" := (bind m (fun _ => k))
  (at level 100, k at level 200, right associativity).

Definition log (ev : event) : M unit :=
  fun s => (Ret tt, State (fs s) (trace s ++ [ev])).

(** [print(line)] on a standard output that can encode every line. *)
Definition print (line : string) : M unit := log (EPrint line).

(** [print(line)] on a standard output whose encoding takes the lines
    [stdout_encodes] accepts: any other line raises [UnicodeEncodeError], a
    [ValueError], and nothing is written.  The text of the error, which
    names the codec and the character, is abridged. *)
Definition print_on (stdout_encodes : string -> bool) (line : string) : M unit :=
  if stdout_encodes line then log (EPrint line)
  else raise (Exn ValueError "codec can't encode characters").

(** A library call that reads or writes the file system only. *)
Definition on_fs {A} (op : FS -> outcome A * FS) : M A :=
  fun s => let '(r, fs') := op (fs s) in (r, State fs' (trace s)).

(** [try: body / except Exception as e: handler e]. *)
Definition try_except_Exception {A} (body : M A) (handler : exn -> M A) : M A :=
  fun s =>
    match body s with
    | (Ret a, s') => (Ret a, s')
    | (Raise e, s') =>
        if is_Exception (exn_cls e) then handler e s' else (Raise e, s')
    end.

(** [with enter as r: body r], for a context manager whose [__exit__]
    returns a false value: the body's exception is re-raised after
    [__exit__], unless [__exit__] raises one of its own. *)
Definition with_as {R A} (enter : M R) (exit_ : R -> M unit) (body : R -> M A) : M A :=
  do r <- enter;
  fun s =>
    match body r s with
    | (Ret a, s1) =>
        match exit_ r s1 with
        | (Ret _, s2) => (Ret a, s2)
        | (Raise e', s2) => (Raise e', s2)
        end
    | (Raise e, s1) =>
        match exit_ r s1 with
        | (Ret _, s2) => (Raise e, s2)
        | (Raise e', s2) => (Raise e', s2)
        end
    end.

(** [for x in xs: ys.append(f x)]. *)
Fixpoint for_each {A B} (f : A -> M B) (xs : list A) : M (list B) :=
  match xs with
  | [] => ret []
  | x :: xs' => do y <- f x; do ys <- for_each f xs'; ret (y :: ys)
  end.

(** *** The file system *)

(** The base directory always exists. *)
Definition lookup_path (m : FS) (p : Path) : option kind :=
  match p with
  | [] => Some Dir
  | _ => m !! p
  end.

Definition is_dir (m : FS) (p : Path) : bool :=
  match lookup_path m p with
  | Some Dir => true
  | _ => false
  end.

Definition os_error (c : exn_class) (what : string) (p : Path) : exn :=
  Exn c (what +:+ ": '" +:+ path_str p +:+ "'").

(** [os.mkdir]: the parent must be a directory and the entry must be new.
    These are the failures that the entries of the file system decide; the
    ones they do not decide (a name too long, missing permissions, a
    read-only or full disk) are not embedded. *)
Definition os_mkdir (p : Path) (m : FS) : exn + FS :=
  match lookup_path m (parent p) with
  | None => inl (os_error FileNotFoundError "[Errno 2] No such file or directory" p)
  | Some File => inl (os_error NotADirectoryError "[Errno 20] Not a directory" p)
  | Some Dir =>
      match lookup_path m p with
      | Some _ => inl (os_error FileExistsError "[Errno 17] File exists" p)
      | None => inr (<[p := Dir]> m)
      end
  end.

(** [Path.mkdir(parents=False, exist_ok=exist_ok)]: a [FileNotFoundError] is
    re-raised, any other [OSError] is forgiven when [exist_ok] holds and the
    path is a directory. *)
Definition mkdir_here (exist_ok : bool) (p : Path) (m : FS) : exn + FS :=
  match os_mkdir p m with
  | inr m' => inr m'
  | inl e =>
      match exn_cls e with
      | FileNotFoundError => inl e
      | _ => if exist_ok && is_dir m p then inr m else inl e
      end
  end.

(** [Path.mkdir(parents=True, exist_ok=exist_ok)], by recursion on the
    reversed path: on [FileNotFoundError] the parent is made with
    [parents=True, exist_ok=True] and the directory itself with
    [parents=False]; the base directory is its own parent, so there the
    error is re-raised. *)
Fixpoint mkdir_parents (exist_ok : bool) (rp : list string) (m : FS) : exn + FS :=
  match os_mkdir (rev rp) m with
  | inr m' => inr m'
  | inl e =>
      match exn_cls e with
      | FileNotFoundError =>
          match rp with
          | [] => inl e
          | _ :: rparent =>
              match mkdir_parents true rparent m with
              | inr m1 => mkdir_here exist_ok (rev rp) m1
              | inl e' => inl e'
              end
          end
      | _ => if exist_ok && is_dir m (rev rp) then inr m else inl e
      end
  end.

Definition mkdir (parents exist_ok : bool) (p : Path) (m : FS) : exn + FS :=
  if parents then mkdir_parents exist_ok (rev p) m else mkdir_here exist_ok p m.

(** A directory that [mkdir(parents=True, exist_ok=True)] has nothing left to
    do for: it is a directory and its parent resolves. *)
Definition settled (m : FS) (p : Path) : Prop :=
  is_dir m p = true /\ lookup_path m (parent p) <> None.

(** [Path(p).mkdir(parents=True, exist_ok=True)] as a computation. *)
Definition Path_mkdir (p : Path) : M unit :=
  log (EMkdir p) ;;
  on_fs (fun m =>
    match mkdir true true p m with
    | inr m' => (Ret tt, m')
    | inl e => (Raise e, m)
    end).

(** [descends m d rel]: walking [rel] down from directory [d] passes through
    directories only and ends on an existing entry. *)
Fixpoint descends (m : FS) (d : Path) (rel : list string) : bool :=
  match rel with
  | [] => false
  | n :: rel' =>
      match rel' with
      | [] => bool_decide (is_Some (m !! (d ++ [n])))
      | _ => bool_decide (m !! (d ++ [n]) = Some Dir) && descends m (d ++ [n]) rel'
      end
  end.

Definition globbed (m : FS) (root : Path) (pat : string) (p : Path) : bool :=
  bool_decide (take (length root) p = root)
  && descends m root (drop (length root) p)
  && fnmatch pat (name p).

(** [list(Path(root).glob('**/' + pat))]: every entry, file or directory,
    anywhere below [root] whose name matches [pat]; nothing when [root] is
    not a directory.  The order is the map's enumeration order. *)
Definition glob_recursive (m : FS) (root : Path) (pat : string) : list Path :=
  if is_dir m root
  then List.filter (globbed m root pat) (map fst (map_to_list m))
  else [].

(** The entries of the subtree rooted at [root], told from the root
    outwards one directory level at a time: the children of [root], and the
    children of every directory already in the subtree. *)
Inductive in_subtree (m : FS) (root : Path) : Path -> Prop :=
| in_subtree_child (n : string) :
    is_dir m root = true ->
    is_Some (m !! (root ++ [n])) ->
    in_subtree m root (root ++ [n])
| in_subtree_deeper (d : Path) (n : string) :
    in_subtree m root d ->
    m !! d = Some Dir ->
    is_Some (m !! (d ++ [n])) ->
    in_subtree m root (d ++ [n]).

(** A well-formed file system: the parent of every entry is a directory. *)
Definition wf_fs (m : FS) : bool :=
  forallb (fun entry => is_dir m (parent (fst entry))) (map_to_list m).

(** The calls one task gives rise to. *)
Definition mkdir_event (t : Path * Path) : event := EMkdir (parent (snd t)).
Definition submit_event (t : Path * Path) : event := ESubmit (fst t) (snd t).

(** The calls of the discovery loop: one recursive glob per extension. *)
Definition glob_events (input_dir : Path) (exts : list string) : list event :=
  map (fun ext => EGlob input_dir ("**/*" +:+ ext)) exts.

(** The trace of a run that started in [s], at the moment its preparation
    loop starts: the output root was asked for, the globs were made and the
    number of files was printed. *)
Definition found_trace (input_dir output_dir : Path) (exts : list string)
    (label : string) (s : state) (files : list Path) : list event :=
  trace s ++ EMkdir output_dir :: glob_events input_dir exts
  ++ [EPrint ("Encontrados " +:+ pretty (length files) +:+ " arquivos " +:+ label)].

(** The tasks handed to the pool, read off a trace. *)
Fixpoint submitted (tr : list event) : list (Path * Path) :=
  match tr with
  | [] => []
  | ESubmit i o :: tr' => (i, o) :: submitted tr'
  | _ :: tr' => submitted tr'
  end.


(** A computation that makes no call recorded in the trace. *)
Definition silent {A} (c : M A) : Prop :=
  forall s, trace (snd (c s)) = trace s.

(** A computation that never reads the trace: run after any trace, it does
    what it does after the empty one and appends what it records. *)
Definition uniform {A} (c : M A) : Prop :=
  forall m tr,
    c (State m tr)
    = (fst (c (State m [])),
       State (fs (snd (c (State m [])))) (tr ++ trace (snd (c (State m []))))).

(** Two traces that are the same but for one printed line. *)
Definition differ_in_one_line (tr1 tr2 : list event) (line1 line2 : string) : Prop :=
  exists before after,
    tr1 = before ++ EPrint line1 :: after /\
    tr2 = before ++ EPrint line2 :: after.


Definition Path_glob (root : Path) (pat : string) : M (list Path) :=
  log (EGlob root ("**/" +:+ pat)) ;;
  fun s => (Ret (glob_recursive (fs s) root pat), s).

(** The same glob on a flavour [fl] of [pathlib]; [globbed],
    [glob_recursive] and [Path_glob] above are the POSIX instances. *)
Definition globbed_on (fl : flavour) (m : FS) (root : Path) (pat : string)
    (p : Path) : bool :=
  bool_decide (take (length root) p = root)
  && descends m root (drop (length root) p)
  && fnmatch_on fl pat (name p).

Definition glob_recursive_on (fl : flavour) (m : FS) (root : Path)
    (pat : string) : list Path :=
  if is_dir m root
  then List.filter (globbed_on fl m root pat) (map fst (map_to_list m))
  else [].

Definition Path_glob_on (fl : flavour) (root : Path) (pat : string) : M (list Path) :=
  log (EGlob root ("**/" +:+ pat)) ;;
  fun s => (Ret (glob_recursive_on fl (fs s) root pat), s).



End Py.

(** ** The program *)

Module Convert.
Import PurePath Py.

(** The image libraries, as far as the adapters call them: Pillow (with the
    HEIF opener registered) and Wand.  Every call may raise and may touch
    the file system; image objects are values, and a setter returns the
    updated object. *)
Class ImageLibs := {
  pil_image : Type;
  Image_open : Path -> FS -> outcome pil_image * FS;
  Image_save_png : pil_image -> Path -> FS -> outcome unit * FS;
  Image_exit : pil_image -> FS -> outcome unit * FS;
  wand_image : Type;
  WandImage : Path -> FS -> outcome wand_image * FS;
  Wand_set_format : wand_image -> string -> FS -> outcome wand_image * FS;
  Wand_set_compression_quality : wand_image -> Z -> FS -> outcome wand_image * FS;
  Wand_alpha_channel : wand_image -> FS -> outcome bool * FS;
  Wand_set_alpha_channel : wand_image -> string -> FS -> outcome wand_image * FS;
  Wand_save : wand_image -> Path -> FS -> outcome unit * FS;
  Wand_exit : wand_image -> FS -> outcome unit * FS
}.



(** [concurrent.futures.Future]: one object per submission, told apart by the
    submission index, carrying the arguments of its call. *)
Record future := Future { fut_id : nat; fut_input : Path; fut_output : Path }.

Definition newline : string := String "010"%char EmptyString.

Section Program.
Context `{ImageLibs}.

(** The order in which [as_completed] hands the futures back.  Worker threads
    are serialised: a conversion takes effect when its future completes. *)
Variable as_completed : forall A : Type, list A -> list A.

(** The diagnostic line of both adapters:
    [print(f"Erro ao converter {input_path}: {str(e)}")]. *)
Definition report (input_path : Path) (e : exn) : M bool :=
  print ("Erro ao converter " +:+ path_str input_path +:+ ": " +:+ exn_text e) ;;
  ret false.

(** The [try] block of [convert_heic_to_png]. *)
Definition heic_try (input_path output_path : Path) : M bool :=
  with_as (on_fs (Image_open input_path))
          (fun img => on_fs (Image_exit img))
          (fun img => on_fs (Image_save_png img output_path)) ;;
  ret true.

Definition convert_heic_to_png (input_path output_path : Path) : M bool :=
  try_except_Exception (heic_try input_path output_path) (report input_path).

(** The [try] block of [convert_cr2_to_png]. *)
Definition cr2_try (input_path output_path : Path) : M bool :=
  with_as (on_fs (WandImage input_path))
          (fun img => on_fs (Wand_exit img))
          (fun img =>
             do img1 <- on_fs (Wand_set_format img "png");
             do img2 <- on_fs (Wand_set_compression_quality img1 90%Z);
             do alpha <- on_fs (Wand_alpha_channel img2);
             do img3 <- (if alpha : bool
                         then on_fs (Wand_set_alpha_channel img2 "remove")
                         else ret img2);
             on_fs (Wand_save img3 output_path)) ;;
  ret true.

Definition convert_cr2_to_png (input_path output_path : Path) : M bool :=
  try_except_Exception (cr2_try input_path output_path) (report input_path).

(** The two adapters on a standard output that cannot encode every line:
    the [print] of the handler is inside no [try], so what it raises leaves
    the adapter.  With an output that encodes every line these are the
    adapters above. *)
Definition diagnostic (input_path : Path) (e : exn) : string :=
  "Erro ao converter " +:+ path_str input_path +:+ ": " +:+ exn_text e.


Definition report_on (stdout_encodes : string -> bool) (input_path : Path)
    (e : exn) : M bool :=
  print_on stdout_encodes (diagnostic input_path e) ;;
  ret false.

Definition convert_heic_to_png_on (stdout_encodes : string -> bool)
    (input_path output_path : Path) : M bool :=
  try_except_Exception (heic_try input_path output_path)
    (report_on stdout_encodes input_path).

Definition convert_cr2_to_png_on (stdout_encodes : string -> bool)
    (input_path output_path : Path) : M bool :=
  try_except_Exception (cr2_try input_path output_path)
    (report_on stdout_encodes input_path).

(** [extensions] of [process_directory]. *)
Definition extensions (conversion_type : string) : list string :=
  if String.eqb conversion_type "HEIC"
  then [".heic"; ".HEIC"; ".heif"; ".HEIF"]
  else [".cr2"; ".CR2"].

(** [conversion_func] of [process_directory]. *)
Definition conversion_func (conversion_type : string) : Path -> Path -> M bool :=
  if String.eqb conversion_type "HEIC"
  then convert_heic_to_png
  else convert_cr2_to_png.

(** [for ext in extensions: files.extend(list(Path(input_dir).glob(f'**/*{ext}')))]. *)
Fixpoint discover (input_dir : Path) (exts : list string) : M (list Path) :=
  match exts with
  | [] => ret []
  | ext :: exts' =>
      do found <- Path_glob input_dir ("*" +:+ ext);
      do more <- discover input_dir exts';
      ret (found ++ more)
  end.

(** The same loop on a flavour [fl] of [pathlib]; [discover] is its POSIX
    instance. *)
Fixpoint discover_on (fl : flavour) (input_dir : Path) (exts : list string)
  : M (list Path) :=
  match exts with
  | [] => ret []
  | ext :: exts' =>
      do found <- Path_glob_on fl input_dir ("*" +:+ ext);
      do more <- discover_on fl input_dir exts';
      ret (found ++ more)
  end.

Definition or_ValueError {A} (o : option A) (text : string) : M A :=
  match o with
  | Some a => ret a
  | None => raise (Exn ValueError text)
  end.

(** The output path of one discovered file:
    [Path(output_dir) / file_path.relative_to(input_dir).with_suffix('.png')]. *)
Definition output_path_of (input_dir output_dir file_path : Path) : option Path :=
  match relative_to file_path input_dir with
  | Some relative_path =>
      match with_suffix relative_path ".png" with
      | Some renamed => Some (joinpath output_dir renamed)
      | None => None
      end
  | None => None
  end.

(** The body of the task-preparation loop. *)
Definition prepare_task (input_dir output_dir file_path : Path) : M (Path * Path) :=
  do output_path <-
    or_ValueError (output_path_of input_dir output_dir file_path)
      "not in the subpath, or empty name";
  Path_mkdir (parent output_path) ;;
  ret (file_path, output_path).

(** [ThreadPoolExecutor(max_workers=max_workers)]. *)
Definition ThreadPoolExecutor (max_workers : Z) : M unit :=
  if (max_workers <=? 0)%Z
  then raise (Exn ValueError "max_workers must be greater than 0")
  else log (EPool max_workers).

(** The dict comprehension: one [executor.submit] per task, in task order. *)
Fixpoint submit_all (next_id : nat) (tasks : list (Path * Path)) : M (list future) :=
  match tasks with
  | [] => ret []
  | (input_path, output_path) :: tasks' =>
      log (ESubmit input_path output_path) ;;
      do futures <- submit_all (S next_id) tasks';
      ret (Future next_id input_path output_path :: futures)
  end.

(** A worker runs the call of a future and stores what it returned or
    raised in the future; nothing escapes the worker. *)
Definition run_worker (f : Path -> Path -> M bool) (fut : future) : M (future * outcome bool) :=
  fun s => let '(r, s') := f (fut_input fut) (fut_output fut) s in (Ret (fut, r), s').

(** [future.result()]. *)
Definition future_result (r : outcome bool) : M bool :=
  match r with
  | Ret b => ret b
  | Raise e => raise e
  end.

(** The loop over [as_completed(futures)]. *)
Fixpoint tally (completed : list (future * outcome bool)) (successful failed : nat)
  : M (nat * nat) :=
  match completed with
  | [] => ret (successful, failed)
  | (_, r) :: completed' =>
      do success <- future_result r;
      let successful' := if success : bool then successful + 1 else successful in
      let failed' := if success : bool then failed else failed + 1 in
      log EPbarUpdate ;;
      tally completed' successful' failed'
  end.

(** A completed future whose call returned [b]. *)
Definition returned (b : bool) (c : future * outcome bool) : bool :=
  match snd c with
  | Ret b' => Bool.eqb b b'
  | Raise _ => false
  end.

(** An adapter whose only recorded calls are prints. *)
Definition prints_only (convert : Path -> Path -> M bool) : Prop :=
  forall i o s, exists lines,
    trace (snd (convert i o s)) = trace s ++ map EPrint lines.

(** The [with ThreadPoolExecutor(...) as executor:] block: submit every
    task, let the workers run, and fold the results, in completion order,
    into the two counters under the progress bar.  The calls of the main
    thread are in the order it makes them; the workers are serialised and
    placed after the last submission, whereas a real worker may start, and
    print, as soon as its task is submitted. *)
Definition run_pool (convert : Path -> Path -> M bool) (max_workers : Z)
    (conversion_tasks : list (Path * Path)) : M (nat * nat) :=
  with_as (ThreadPoolExecutor max_workers) (fun _ => log EShutdown)
    (fun _ =>
       do futures <- submit_all 0 conversion_tasks;
       do completed <- for_each (run_worker convert) (as_completed _ futures);
       with_as (log (EPbar (length conversion_tasks))) (fun _ => log EPbarClose)
         (fun _ => tally completed 0 0)).

(** What the discovery loop collects on a file system. *)
Definition discovered_files (m : FS) (input_dir : Path) (exts : list string) : list Path :=
  flat_map (fun ext => glob_recursive m input_dir ("*" +:+ ext)) exts.

(** The same on a flavour [fl] of [pathlib]. *)
Definition discovered_files_on (fl : flavour) (m : FS) (input_dir : Path)
    (exts : list string) : list Path :=
  flat_map (fun ext => glob_recursive_on fl m input_dir ("*" +:+ ext)) exts.

(** The pipeline the three scripts share; they differ in the extension
    list, in the format label of the two messages and in the adapter.  It is
    embedded on the POSIX flavour of [pathlib] and on a standard output
    that encodes every line. *)
Definition run_pipeline (exts : list string) (label : string)
    (convert : Path -> Path -> M bool)
    (input_dir output_dir : Path) (max_workers : Z) : M unit :=
  Path_mkdir output_dir ;;
  do files <- discover input_dir exts;
  match files with
  | [] => print ("Nenhum arquivo " +:+ label +:+ " encontrado!")
  | _ :: _ =>
      print ("Encontrados " +:+ pretty (length files) +:+ " arquivos " +:+ label) ;;
      do conversion_tasks <- for_each (prepare_task input_dir output_dir) files;
      do counts <- run_pool convert max_workers conversion_tasks;
      print (newline +:+ "Conversão concluída!") ;;
      print ("Convertidas com sucesso: " +:+ pretty (fst counts)) ;;
      print ("Falhas na conversão: " +:+ pretty (snd counts))
  end.

(** [convert_images.process_directory]. *)
Definition process_directory (input_dir output_dir : Path)
    (conversion_type : string) (max_workers : Z) : M unit :=
  run_pipeline (extensions conversion_type) conversion_type
    (conversion_func conversion_type) input_dir output_dir max_workers.

(** [unic_codes/HEIC_to_PNG.process_directory]. *)
Definition heic_process_directory (input_dir output_dir : Path) (max_workers : Z) : M unit :=
  run_pipeline [".heic"; ".HEIC"; ".heif"; ".HEIF"] "HEIC/HEIF"
    convert_heic_to_png input_dir output_dir max_workers.

(** [unic_codes/CR2_to_PNG.process_directory]. *)
Definition cr2_process_directory (input_dir output_dir : Path) (max_workers : Z) : M unit :=
  run_pipeline [".CR2"; ".cr2"] "CR2"
    convert_cr2_to_png input_dir output_dir max_workers.

End Program.

End Convert.

(** ** A small world to run the program in *)

Module Demo.
Import PurePath Py Convert.

(** A stand-in for the image libraries: an image is the path it was opened
    from; a file decodes unless its name starts with [corrupt]; saving
    writes the output file when its directory exists. *)
Definition demo_open (p : Path) (m : FS) : outcome Path * FS :=
  match m !! p with
  | Some File =>
      if String.prefix "corrupt" (name p)
      then (Raise (Exn OtherException "cannot identify image file"), m)
      else (Ret p, m)
  | Some Dir => (Raise (Exn OtherException "Is a directory"), m)
  | None => (Raise (Exn FileNotFoundError "No such file or directory"), m)
  end.

Definition demo_save (img out : Path) (m : FS) : outcome unit * FS :=
  if is_dir m (parent out)
  then (Ret tt, <[out := File]> m)
  else (Raise (Exn FileNotFoundError "No such file or directory"), m).

#[global] Instance demo_libs : ImageLibs := {|
  pil_image := Path;
  Image_open := demo_open;
  Image_save_png := demo_save;
  Image_exit := fun _ m => (Ret tt, m);
  wand_image := Path;
  WandImage := demo_open;
  Wand_set_format := fun img _ m => (Ret img, m);
  Wand_set_compression_quality := fun img _ m => (Ret img, m);
  Wand_alpha_channel := fun _ m => (Ret false, m);
  Wand_set_alpha_channel := fun img _ m => (Ret img, m);
  Wand_save := demo_save;
  Wand_exit := fun _ m => (Ret tt, m)
|}.

(** Last submitted, first completed. *)
Definition demo_order : forall A : Type, list A -> list A := fun _ l => rev l.

(** [in/a/b/photo1.heic], [in/c/photo2.HEIF], [in/c/corrupt.heic] and a
    stray [in/c/notes.txt]. *)
Definition demo_fs : FS :=
  list_to_map
    [ (["in"], Dir);
      (["in"; "a"], Dir);
      (["in"; "a"; "b"], Dir);
      (["in"; "a"; "b"; "photo1.heic"], File);
      (["in"; "c"], Dir);
      (["in"; "c"; "photo2.HEIF"], File);
      (["in"; "c"; "corrupt.heic"], File);
      (["in"; "c"; "notes.txt"], File) ].

Definition demo_state : state := State demo_fs [].

(** A hidden file whose whole name is a listed extension. *)
Definition hidden_fs : FS :=
  list_to_map [ (["in"], Dir); (["in"; ".heic"], File) ].

(** Two files of one directory that differ in their extension only. *)
Definition twin_fs : FS :=
  list_to_map
    [ (["in"], Dir); (["in"; "img.heic"], File); (["in"; "img.heif"], File) ].

(** The same photo under three casings of the extension. *)
Definition casing_fs : FS :=
  list_to_map
    [ (["in"], Dir);
      (["in"; "photo.heic"], File);
      (["in"; "photo.Heic"], File);
      (["in"; "photo.HEIC"], File) ].

(** An output tree in which [out/a] already exists as a regular file, so the
    directory [out/a] cannot be made; nothing is wrong with [out/b]. *)
Definition blocked_fs : FS :=
  list_to_map
    [ (["in"], Dir);
      (["in"; "a"], Dir);
      (["in"; "a"; "x.heic"], File);
      (["in"; "b"], Dir);
      (["in"; "b"; "y.heic"], File);
      (["out"], Dir);
      (["out"; "a"], File) ].

(** The blocked run at its start, and when the directory of its first task
    has been made. *)
Definition blocked_start : state := State blocked_fs [].

Definition blocked_mid : state :=
  State (<[ ["out"; "b"] := Dir ]> blocked_fs)
    (found_trace ["in"] ["out"] (extensions "HEIC") "HEIC" blocked_start
       [ ["in"; "b"; "y.heic"]; ["in"; "a"; "x.heic"] ]
     ++ [EMkdir ["out"; "b"]]).

(** The demo world once the output root has been made, and at the end of
    its HEIC run. *)
Definition demo_fs_out : FS := <[ ["out"] := Dir ]> demo_fs.

Definition demo_final : state :=
  snd (process_directory demo_order ["in"] ["out"] "HEIC" 4%Z demo_state).

Definition demo_final_fs : FS := fs demo_final.

(** The demo HEIC run when its preparation loop starts and when it ends, and
    the tasks it has then. *)
Definition demo_found : state :=
  State demo_fs_out
    (found_trace ["in"] ["out"] (extensions "HEIC") "HEIC" demo_state
       (discovered_files demo_fs_out ["in"] (extensions "HEIC"))).

Definition demo_tasks : list (Path * Path) :=
  [ (["in"; "c"; "corrupt.heic"], ["out"; "c"; "corrupt.png"]);
    (["in"; "a"; "b"; "photo1.heic"], ["out"; "a"; "b"; "photo1.png"]);
    (["in"; "c"; "photo2.HEIF"], ["out"; "c"; "photo2.png"]) ].

Definition demo_prepared : state :=
  snd (for_each (prepare_task ["in"] ["out"])
         (discovered_files demo_fs_out ["in"] (extensions "HEIC")) demo_found).




(** A tree of raw files for the CR2 scripts. *)
Definition raw_fs : FS :=
  list_to_map
    [ (["in"], Dir);
      (["in"; "IMG_1.CR2"], File);
      (["in"; "sub"], Dir);
      (["in"; "sub"; "img_2.cr2"], File);
      (["in"; "sub"; "corrupt_3.cr2"], File) ].

Definition raw_state : state := State raw_fs [].

Definition raw_fs_out : FS := <[ ["out"] := Dir ]> raw_fs.

Definition raw_final : state :=
  snd (cr2_process_directory demo_order ["in"] ["out"] 4%Z raw_state).

Definition demo_heic_final : state :=
  snd (heic_process_directory demo_order ["in"] ["out"] 4%Z demo_state).

(** A Windows directory with one photo whose extension is in mixed case. *)
Definition mixed_fs : FS :=
  list_to_map [ (["in"], Dir); (["in"; "photo.Heic"], File) ].



(** The demo world once [out/a/b] has been made with its ancestors. *)
Definition demo_fs_deep : FS :=
  <[ ["out"; "a"; "b"] := Dir ]> (<[ ["out"; "a"] := Dir ]> (<[ ["out"] := Dir ]> demo_fs)).

End Demo.

(** * Facts *)

(** ** Strings and names *)

Module PurePathFacts.
Import PurePath.

Lemma app_cons (c : ascii) (a b : string) : String c a +:+ b = String c (a +:+ b).
Proof. reflexivity. Qed.

Lemma length_app (a b : string) :
  String.length (a +:+ b) = String.length a + String.length b.
Proof. induction a as [|c a IH]; rewrite ?app_cons; simpl; [reflexivity | congruence]. Qed.

Lemma app_nil_r (a : string) : a +:+ "" = a.
Proof. induction a as [|c a IH]; rewrite ?app_cons; simpl; [reflexivity | congruence]. Qed.

Lemma app_assoc (a b c : string) : (a +:+ b) +:+ c = a +:+ (b +:+ c).
Proof. induction a as [|x a IH]; rewrite ?app_cons; simpl; [reflexivity | congruence]. Qed.

Lemma to_list_app (a b : string) :
  list_ascii_of_string (a +:+ b) = list_ascii_of_string a ++ list_ascii_of_string b.
Proof. induction a as [|c a IH]; rewrite ?app_cons; simpl; [reflexivity | congruence]. Qed.

Lemma to_list_inj (a b : string) :
  list_ascii_of_string a = list_ascii_of_string b -> a = b.
Proof.
  intros E.
  rewrite <- (string_of_list_ascii_of_string a), <- (string_of_list_ascii_of_string b).
  now rewrite E.
Qed.

(** Appending on the right is injective. *)
Lemma app_inv_tail (a b t : string) : a +:+ t = b +:+ t -> a = b.
Proof.
  intros E. apply to_list_inj.
  apply (f_equal list_ascii_of_string) in E.
  rewrite !to_list_app in E.
  now apply List.app_inv_tail in E.
Qed.

Lemma slice_from_app (a b : string) : slice_from (String.length a) (a +:+ b) = b.
Proof. induction a as [|c a IH]; rewrite ?app_cons; simpl; [now destruct b | exact IH]. Qed.

Lemma slice_to_app (a b : string) : slice_to (String.length a) (a +:+ b) = a.
Proof.
  induction a as [|c a IH]; rewrite ?app_cons; simpl; [now destruct b | congruence].
Qed.

Lemma slice_to_from (i : nat) (s : string) : slice_to i s +:+ slice_from i s = s.
Proof.
  revert s. induction i as [|i IH]; intros [|c s]; simpl; try reflexivity.
  rewrite app_cons. f_equal. apply IH.
Qed.

(** The last dot of [stem ++ ext] is the last dot of [ext]. *)
Lemma rfind_dot_app (stem ext : string) (i : nat) :
  rfind_dot ext = Some i ->
  rfind_dot (stem +:+ ext) = Some (String.length stem + i).
Proof.
  intros E. induction stem as [|c stem IH]; [exact E|].
  rewrite app_cons. simpl. now rewrite IH.
Qed.

Lemma suffix_of_app (stem ext : string) :
  dotted ext -> stem <> "" -> suffix_of (stem +:+ ext) = ext.
Proof.
  intros [E L] N. unfold suffix_of.
  rewrite (rfind_dot_app stem ext 0 E), length_app, Nat.add_0_r.
  assert (0 < String.length stem) by (destruct stem; [congruence | simpl; lia]).
  replace (0 <? String.length stem) with true by (symmetry; apply Nat.ltb_lt; lia).
  replace (String.length stem <? String.length stem + String.length ext - 1)
    with true by (symmetry; apply Nat.ltb_lt; lia).
  simpl. apply slice_from_app.
Qed.

Lemma suffix_of_bare (ext : string) : rfind_dot ext = Some 0 -> suffix_of ext = "".
Proof. intros E. unfold suffix_of. now rewrite E. Qed.

(** A name is its stem followed by its suffix. *)
Lemma stem_suffix (nm : string) : stem_of nm +:+ suffix_of nm = nm.
Proof.
  unfold stem_of, suffix_of. destruct (rfind_dot nm) as [i|].
  - destruct ((0 <? i) && (i <? String.length nm - 1)).
    + apply slice_to_from.
    + apply app_nil_r.
  - apply app_nil_r.
Qed.

Lemma length_slice_from (i : nat) (s : string) :
  String.length (slice_from i s) = String.length s - i.
Proof.
  revert s. induction i as [|i IH]; intros [|c s]; simpl; try reflexivity.
  apply IH.
Qed.

(** [with_suffix] keeps the stem and appends the new suffix. *)
Lemma replace_suffix_stem (nm sfx : string) :
  replace_suffix nm sfx = stem_of nm +:+ sfx.
Proof.
  unfold replace_suffix, stem_of, suffix_of.
  destruct (rfind_dot nm) as [i|]; [|reflexivity].
  destruct ((0 <? i) && (i <? String.length nm - 1)) eqn:B; [|reflexivity].
  apply andb_true_iff in B as [B1 B2].
  apply Nat.ltb_lt in B1, B2.
  destruct (String.eqb_spec (slice_from i nm) "") as [E|_].
  - apply (f_equal String.length) in E. rewrite length_slice_from in E.
    simpl in E. lia.
  - rewrite length_slice_from.
    replace (String.length nm - (String.length nm - i)) with i by lia.
    reflexivity.
Qed.

Lemma replace_suffix_app (stem ext sfx : string) :
  dotted ext -> stem <> "" -> replace_suffix (stem +:+ ext) sfx = stem +:+ sfx.
Proof.
  intros D N. rewrite replace_suffix_stem. f_equal.
  apply (app_inv_tail _ _ (suffix_of (stem +:+ ext))).
  rewrite stem_suffix. now rewrite suffix_of_app.
Qed.

Lemma replace_suffix_bare (ext sfx : string) :
  rfind_dot ext = Some 0 -> replace_suffix ext sfx = ext +:+ sfx.
Proof.
  intros E. unfold replace_suffix. now rewrite (suffix_of_bare ext E).
Qed.

(** *** Pattern matching *)

Lemma fnmatch_literal (lit nm : string) :
  literal lit = true -> (fnmatch lit nm = true <-> nm = lit).
Proof.
  revert nm. induction lit as [|c lit IH]; intros nm L; simpl.
  - destruct nm; split; congruence.
  - simpl in L. apply andb_true_iff in L as [L1 L3].
    apply andb_true_iff in L1 as [L1 L2].
    apply negb_true_iff in L1, L2. rewrite L1, L2. simpl.
    destruct nm as [|d nm]; [split; congruence|].
    rewrite andb_true_iff, (IH nm L3), Ascii.eqb_eq.
    split; [intros [-> ->]; reflexivity | intros E; inversion E; auto].
Qed.

Lemma fnmatch_star (pat nm : string) :
  fnmatch (String star pat) nm = true <->
  exists a b, nm = a +:+ b /\ fnmatch pat b = true.
Proof.
  simpl. split.
  - induction nm as [|c nm IH]; intros Hm.
    + apply orb_true_iff in Hm as [Hm|Hm]; [|discriminate].
      exists "", "". auto.
    + apply orb_true_iff in Hm as [Hm|Hm].
      * exists "", (String c nm). auto.
      * destruct (IH Hm) as (a & b & -> & Hb).
        exists (String c a), b. auto.
  - intros (a & b & -> & Hb).
    induction a as [|c a IH]; simpl.
    + destruct b; apply orb_true_iff; auto.
    + apply orb_true_iff. right. exact IH.
Qed.

(** The pattern [*ext] matches exactly the names that end with [ext]. *)
Lemma fnmatch_star_literal (ext nm : string) :
  literal ext = true ->
  (fnmatch ("*" +:+ ext) nm = true <-> exists stem, nm = stem +:+ ext).
Proof.
  intros L. change ("*" +:+ ext) with (String star ext).
  rewrite fnmatch_star. split.
  - intros (a & b & -> & Hb). apply (fnmatch_literal ext b L) in Hb. subst b. eauto.
  - intros (stem & ->). exists stem, ext. split; [reflexivity|].
    now apply fnmatch_literal.
Qed.

End PurePathFacts.

(** ** Discovery *)

Module DiscoveryFacts.
Import PurePath Py Convert PurePathFacts.

Lemma descends_two (m : FS) (d : Path) (n n' : string) (rel : list string) :
  descends m d (n :: n' :: rel)
  = bool_decide (m !! (d ++ [n]) = Some Dir) && descends m (d ++ [n]) (n' :: rel).
Proof. reflexivity. Qed.

Lemma descends_snoc (m : FS) (rel : list string) : forall (d : Path) (n : string),
  descends m d rel = true ->
  m !! (d ++ rel) = Some Dir ->
  is_Some (m !! (d ++ rel ++ [n])) ->
  descends m d (rel ++ [n]) = true.
Proof.
  induction rel as [|a rel IH]; intros d n Hd Hdir Hn; [discriminate|].
  destruct rel as [|b rel].
  - simpl. rewrite <- (assoc_L (++)). simpl.
    apply andb_true_iff. split; apply bool_decide_eq_true; assumption.
  - change ((a :: b :: rel) ++ [n]) with (a :: b :: (rel ++ [n])).
    rewrite descends_two in Hd |- *.
    apply andb_true_iff in Hd as [Ha Hd]. apply andb_true_iff. split; [exact Ha|].
    apply (IH (d ++ [a]) n Hd).
    + rewrite <- (assoc_L (++)). exact Hdir.
    + rewrite <- (assoc_L (++)). exact Hn.
Qed.

Lemma descends_is_Some (m : FS) (rel : list string) : forall d : Path,
  descends m d rel = true -> is_Some (m !! (d ++ rel)).
Proof.
  induction rel as [|a rel IH]; intros d Hd; [discriminate|].
  destruct rel as [|b rel].
  - simpl in Hd. now apply bool_decide_eq_true in Hd.
  - rewrite descends_two in Hd. apply andb_true_iff in Hd as [_ Hd].
    apply IH in Hd. now rewrite <- (assoc_L (++)) in Hd.
Qed.

(** Re-rooting one level up. *)
Lemma in_subtree_up (m : FS) (d : Path) (n : string) (p : Path) :
  in_subtree m (d ++ [n]) p ->
  is_dir m d = true ->
  m !! (d ++ [n]) = Some Dir ->
  in_subtree m d p.
Proof.
  intros Hp Hd Hn. induction Hp as [n' _ Hn' | d' n' _ IH Hd' Hn'].
  - apply in_subtree_deeper; [|exact Hn|exact Hn'].
    apply in_subtree_child; [exact Hd | rewrite Hn; eauto].
  - apply in_subtree_deeper; assumption.
Qed.

Lemma descends_in_subtree (m : FS) (rel : list string) : forall d : Path,
  is_dir m d = true -> descends m d rel = true -> in_subtree m d (d ++ rel).
Proof.
  induction rel as [|a rel IH]; intros d Hdir Hd; [discriminate|].
  destruct rel as [|b rel].
  - simpl in Hd. apply bool_decide_eq_true in Hd. now apply in_subtree_child.
  - rewrite descends_two in Hd. apply andb_true_iff in Hd as [Ha Hd].
    apply bool_decide_eq_true in Ha.
    apply (in_subtree_up m d a); [|exact Hdir|exact Ha].
    replace (d ++ a :: b :: rel) with ((d ++ [a]) ++ b :: rel)
      by now rewrite <- (assoc_L (++)).
    apply IH; [|exact Hd].
    unfold is_dir, lookup_path. destruct (d ++ [a]) eqn:E.
    + now destruct d.
    + now rewrite Ha.
Qed.

Lemma in_subtree_descends (m : FS) (d p : Path) :
  in_subtree m d p -> exists rel, p = d ++ rel /\ descends m d rel = true.
Proof.
  induction 1 as [n Hd Hn | d' n _ (rel & -> & Hrel) Hd' Hn].
  - exists [n]. split; [reflexivity|]. simpl. now apply bool_decide_eq_true.
  - exists (rel ++ [n]). split; [now rewrite (assoc_L (++))|].
    apply descends_snoc; [exact Hrel|exact Hd'|].
    now rewrite (assoc_L (++)).
Qed.

Lemma in_subtree_root_dir (m : FS) (d p : Path) :
  in_subtree m d p -> is_dir m d = true.
Proof. induction 1; assumption. Qed.

Lemma in_keys (m : FS) (p : Path) :
  In p (map fst (map_to_list m)) <-> is_Some (m !! p).
Proof.
  rewrite in_map_iff. split.
  - intros ([q k] & <- & Hin). apply list_elem_of_In, elem_of_map_to_list in Hin.
    simpl. eauto.
  - intros [k Hk]. exists (p, k). split; [reflexivity|].
    now apply list_elem_of_In, elem_of_map_to_list.
Qed.

(** What [glob('**/' + pat)] returns: the entries of the subtree whose name
    matches the pattern. *)
Lemma glob_recursive_spec (m : FS) (root : Path) (pat : string) (p : Path) :
  In p (glob_recursive m root pat) <->
  in_subtree m root p /\ fnmatch pat (name p) = true.
Proof.
  unfold glob_recursive. split.
  - destruct (is_dir m root) eqn:Hroot; [|intros []].
    rewrite filter_In. intros [_ Hg]. unfold globbed in Hg.
    apply andb_true_iff in Hg as [Hg Hmatch].
    apply andb_true_iff in Hg as [Hpre Hdesc].
    apply bool_decide_eq_true in Hpre. split; [|exact Hmatch].
    rewrite <- (take_drop (length root) p), Hpre.
    now apply descends_in_subtree.
  - intros [Hsub Hmatch]. rewrite (in_subtree_root_dir _ _ _ Hsub).
    destruct (in_subtree_descends _ _ _ Hsub) as (rel & -> & Hrel).
    apply filter_In. split.
    + apply in_keys. now apply descends_is_Some.
    + unfold globbed. rewrite take_app_length, drop_app_length, Hrel, Hmatch.
      now rewrite bool_decide_eq_true_2.
Qed.

Lemma discovered_files_spec (m : FS) (root : Path) (exts : list string) (p : Path) :
  In p (discovered_files m root exts) <->
  in_subtree m root p /\ exists ext, In ext exts /\ fnmatch ("*" +:+ ext) (name p) = true.
Proof.
  unfold discovered_files. rewrite in_flat_map. split.
  - intros (ext & Hext & Hp). apply glob_recursive_spec in Hp as [Hs Hm]. eauto.
  - intros (Hs & ext & Hext & Hm). exists ext. split; [exact Hext|].
    now apply glob_recursive_spec.
Qed.

(** The discovery loop never raises, leaves the file system alone and makes
    one recursive glob per extension. *)
Lemma discover_spec (input_dir : Path) (exts : list string) (s : state) :
  discover input_dir exts s
  = (Ret (discovered_files (fs s) input_dir exts),
     State (fs s) (trace s ++ map (fun ext => EGlob input_dir ("**/*" +:+ ext)) exts)).
Proof.
  revert s. induction exts as [|ext exts IH]; intros [m tr].
  - simpl. unfold ret. now rewrite List.app_nil_r.
  - simpl. unfold bind at 1. unfold Path_glob at 1. unfold bind at 1, log at 1.
    simpl. unfold bind at 1. rewrite IH. simpl. unfold ret.
    now rewrite <- (assoc_L (++)).
Qed.

Lemma extensions_shape (conversion_type ext : string) :
  In ext (extensions conversion_type) -> literal ext = true /\ dotted ext.
Proof.
  unfold extensions, dotted.
  destruct (String.eqb conversion_type "HEIC"); simpl;
    intros H; repeat (destruct H as [<-|H]; [simpl; repeat split; lia|]);
    destruct H.
Qed.

(** On the POSIX flavour the flavoured definitions are the plain ones. *)
Lemma fnmatch_on_posix (pat nm : string) : fnmatch_on Posix pat nm = fnmatch pat nm.
Proof.
  revert nm. induction pat as [|c pat IH]; intros nm; simpl; [reflexivity|].
  destruct (Ascii.eqb c star).
  - induction nm as [|d nm IHnm]; simpl; rewrite IH; [reflexivity|].
    now rewrite IHnm.
  - destruct nm as [|d nm]; [reflexivity|]. now rewrite IH.
Qed.

Lemma glob_recursive_on_posix (m : FS) (root : Path) (pat : string) :
  glob_recursive_on Posix m root pat = glob_recursive m root pat.
Proof.
  unfold glob_recursive_on, glob_recursive. destruct (is_dir m root); [|reflexivity].
  apply List.filter_ext. intros p. unfold globbed_on, globbed.
  now rewrite fnmatch_on_posix.
Qed.

Lemma discovered_files_on_posix (m : FS) (input_dir : Path) (exts : list string) :
  discovered_files_on Posix m input_dir exts = discovered_files m input_dir exts.
Proof.
  unfold discovered_files_on, discovered_files.
  induction exts as [|ext exts IH]; simpl; [reflexivity|].
  now rewrite glob_recursive_on_posix, IH.
Qed.

Lemma discover_on_spec (fl : flavour) (input_dir : Path) (exts : list string) (s : state) :
  discover_on fl input_dir exts s
  = (Ret (discovered_files_on fl (fs s) input_dir exts),
     State (fs s) (trace s ++ map (fun ext => EGlob input_dir ("**/*" +:+ ext)) exts)).
Proof.
  revert s. induction exts as [|ext exts IH]; intros [m tr].
  - simpl. unfold ret. now rewrite List.app_nil_r.
  - simpl. unfold bind at 1. unfold Path_glob_on at 1. unfold bind at 1, log at 1.
    simpl. unfold bind at 1. rewrite IH. simpl. unfold ret.
    now rewrite <- (assoc_L (++)).
Qed.

Lemma discover_on_posix (input_dir : Path) (exts : list string) (s : state) :
  discover_on Posix input_dir exts s = discover input_dir exts s.
Proof. now rewrite discover_on_spec, discover_spec, discovered_files_on_posix. Qed.

End DiscoveryFacts.

(** ** Path mapping *)

Module PathMapFacts.
Import PurePath Py Convert PurePathFacts DiscoveryFacts.

Lemma relative_to_app (d rel : Path) : relative_to (d ++ rel) d = Some rel.
Proof.
  induction d as [|c d IH]; simpl; [reflexivity|].
  now rewrite String.eqb_refl.
Qed.

Lemma relative_to_Some (p d rel : Path) : relative_to p d = Some rel -> p = d ++ rel.
Proof.
  revert p. induction d as [|c d IH]; intros p; simpl.
  - congruence.
  - destruct p as [|x p]; [discriminate|].
    destruct (String.eqb_spec x c) as [->|]; [|discriminate].
    intros E. now rewrite (IH p E).
Qed.

Lemma name_app (d rel : Path) : rel <> [] -> name (d ++ rel) = name rel.
Proof.
  intros N. unfold name. induction d as [|c d IH]; [reflexivity|].
  simpl. destruct (d ++ rel) eqn:E; [|exact IH].
  apply app_eq_nil in E as [_ E]. contradiction.
Qed.

Lemma parent_app (d rel : Path) : rel <> [] -> parent (d ++ rel) = d ++ parent rel.
Proof. intros N. unfold parent. now apply removelast_app. Qed.

Lemma parent_name (p : Path) : p <> [] -> parent p ++ [name p] = p.
Proof. intros N. symmetry. now apply app_removelast_last. Qed.

Lemma app_not_empty (stem ext : string) : dotted ext -> stem +:+ ext <> "".
Proof.
  intros [_ L] E. apply (f_equal String.length) in E.
  rewrite length_app in E. simpl in E. lia.
Qed.

Lemma in_subtree_below (m : FS) (d p : Path) :
  in_subtree m d p -> exists rel, p = d ++ rel /\ rel <> [].
Proof.
  intros H. destruct (in_subtree_descends _ _ _ H) as (rel & -> & Hrel).
  exists rel. split; [reflexivity|]. now destruct rel.
Qed.

(** The two source lines, for a path below the input root with a name. *)
Lemma output_path_of_below (input_dir output_dir rel : Path) :
  rel <> [] -> name rel <> "" ->
  output_path_of input_dir output_dir (input_dir ++ rel)
  = Some (output_dir ++ parent rel ++ [stem_of (name rel) +:+ ".png"]).
Proof.
  intros N Hn. unfold output_path_of, with_suffix, joinpath.
  rewrite relative_to_app. simpl.
  destruct (String.eqb_spec (name rel) "") as [E|_]; [congruence|].
  now rewrite replace_suffix_stem.
Qed.

(** Every discovered file is below the input root and ends with a listed
    extension. *)
Lemma discovered_shape (m : FS) (input_dir : Path) (conversion_type : string) (p : Path) :
  In p (discovered_files m input_dir (extensions conversion_type)) ->
  exists rel ext stem,
    p = input_dir ++ rel /\ rel <> [] /\
    In ext (extensions conversion_type) /\ name rel = stem +:+ ext.
Proof.
  intros H. apply discovered_files_spec in H as (Hs & ext & Hext & Hm).
  destruct (in_subtree_below _ _ _ Hs) as (rel & -> & N).
  destruct (extensions_shape _ _ Hext) as [L _].
  apply (fnmatch_star_literal ext _ L) in Hm as (stem & Hstem).
  rewrite (name_app _ _ N) in Hstem. eauto 10.
Qed.

Lemma stem_of_app (stem ext : string) :
  dotted ext -> stem <> "" -> stem_of (stem +:+ ext) = stem.
Proof.
  intros D N. apply (app_inv_tail _ _ (suffix_of (stem +:+ ext))).
  rewrite stem_suffix. now rewrite suffix_of_app.
Qed.

Lemma stem_of_bare (ext : string) : rfind_dot ext = Some 0 -> stem_of ext = ext.
Proof. intros E. unfold stem_of. now rewrite E. Qed.

End PathMapFacts.

(** ** Claims on discovery and on the output path *)

Module PathClaims.
Import PurePath Py Convert Demo PurePathFacts DiscoveryFacts PathMapFacts.

(** C4, as stated, fails on Windows, where [pathlib] compiles the pattern
    with [re.IGNORECASE]: the one file of the directory, [photo.Heic], is
    discovered by the HEIC list, once through [.heic] and once through
    [.HEIC], although its name ends with none of the four listed
    extensions. *)
Lemma mixed_case_is_matched_on_windows :
  fst (discover_on Windows ["in"] (extensions "HEIC") (State mixed_fs []))
  = Ret [ ["in"; "photo.Heic"]; ["in"; "photo.Heic"] ] /\
  in_subtree mixed_fs ["in"] ["in"; "photo.Heic"] /\
  ~ (exists ext stem,
        In ext (extensions "HEIC") /\ name ["in"; "photo.Heic"] = stem +:+ ext).
Proof.
  split; [vm_compute; reflexivity|]. split.
  - apply (in_subtree_child mixed_fs ["in"] "photo.Heic"); vm_compute; eauto.
  - intros (ext & stem & Hext & Hn).
    assert (Hm : fnmatch ("*" +:+ ext) "photo.Heic" = true).
    { destruct (extensions_shape _ _ Hext) as [L _].
      apply (fnmatch_star_literal ext _ L). eauto. }
    simpl in Hext. destruct Hext as [<-|[<-|[<-|[<-|[]]]]]; vm_compute in Hm; discriminate.
Qed.

(** C4, amended.  On the POSIX flavour of [pathlib], discovery compares
    extensions as literal, case-sensitive suffixes: the discovery loop always
    returns, and an entry is in its result exactly when it lies in the
    subtree of the input root and its name ends with one of the listed
    extension strings; [photo.Heic] is never found by the HEIC list, wherever
    it lies. *)
Theorem posix_discovery_is_exact_suffix_match
    (fl : flavour) (s : state) (input_dir : Path) (conversion_type : string) :
  fl = Posix ->
  exists files,
    fst (discover_on fl input_dir (extensions conversion_type) s) = Ret files /\
    (forall p,
        In p files <->
        in_subtree (fs s) input_dir p /\
        exists ext stem, In ext (extensions conversion_type) /\ name p = stem +:+ ext) /\
    (conversion_type = "HEIC" -> forall d, ~ In (d ++ ["photo.Heic"]) files).
Proof.
  intros ->.
  exists (discovered_files (fs s) input_dir (extensions conversion_type)).
  rewrite discover_on_posix, discover_spec. split; [reflexivity|]. split.
  - intros p. rewrite discovered_files_spec. split.
    + intros (Hs & ext & Hext & Hm). split; [exact Hs|].
      destruct (extensions_shape _ _ Hext) as [L _].
      apply (fnmatch_star_literal ext _ L) in Hm as (stem & Hstem). eauto.
    + intros (Hs & ext & stem & Hext & Hn). split; [exact Hs|].
      exists ext. split; [exact Hext|].
      destruct (extensions_shape _ _ Hext) as [L _].
      apply (fnmatch_star_literal ext _ L). eauto.
  - intros -> d Hin. apply discovered_files_spec in Hin as (_ & ext & Hext & Hm).
    rewrite name_app in Hm by discriminate.
    simpl in Hext. destruct Hext as [<-|[<-|[<-|[<-|[]]]]]; vm_compute in Hm; discriminate.
Qed.

Lemma posix_discovery_is_exact_suffix_match_witness :
  Posix = Posix /\
  exists files,
    fst (discover_on Posix ["in"] (extensions "HEIC") (State casing_fs [])) = Ret files /\
    (forall p,
        In p files <->
        in_subtree (fs (State casing_fs [])) ["in"] p /\
        exists ext stem, In ext (extensions "HEIC") /\ name p = stem +:+ ext) /\
    ("HEIC" = "HEIC" -> forall d, ~ In (d ++ ["photo.Heic"]) files).
Proof.
  split; [reflexivity|].
  apply (posix_discovery_is_exact_suffix_match Posix (State casing_fs []) ["in"] "HEIC").
  reflexivity.
Defined.

(** On POSIX the listed casings are found, the unlisted one is not. *)
Example casing_is_respected :
  In ["in"; "photo.heic"] (discovered_files casing_fs ["in"] (extensions "HEIC")) /\
  In ["in"; "photo.HEIC"] (discovered_files casing_fs ["in"] (extensions "HEIC")) /\
  ~ In ["in"; "photo.Heic"] (discovered_files casing_fs ["in"] (extensions "HEIC")).
Proof.
  split; [vm_compute; auto|]. split; [vm_compute; auto|].
  vm_compute. intros [E|[E|[]]]; discriminate.
Qed.

(** C2, as stated, fails on a hidden file named [.heic]: it is discovered,
    its name is the listed extension [.heic] after an empty stem, and its
    output keeps the whole name and gets [.png] appended. *)
Lemma bare_extension_is_not_replaced :
  In ["in"; ".heic"] (discovered_files hidden_fs ["in"] (extensions "HEIC")) /\
  In ".heic" (extensions "HEIC") /\
  name ["in"; ".heic"] = "" +:+ ".heic" /\
  output_path_of ["in"] ["out"] ["in"; ".heic"] = Some ["out"; ".heic.png"] /\
  output_path_of ["in"] ["out"] ["in"; ".heic"] <> Some (["out"] ++ [] ++ ["" +:+ ".png"]).
Proof.
  split; [vm_compute; auto|]. split; [vm_compute; auto|].
  split; [reflexivity|]. split; [reflexivity|].
  vm_compute. discriminate.
Qed.

(** C2, amended.  Every discovered file lies below the input root and its
    name is a stem followed by a listed extension; its output path is the
    output root joined with its relative directory and with the stem
    followed by the lower-case [.png], whatever the casing of the extension,
    when the stem is not empty; a name that is only the extension is kept
    whole and [.png] is appended. *)
Theorem output_path_rerooted_with_png
    (m : FS) (input_dir output_dir : Path) (conversion_type : string) (p : Path) :
  In p (discovered_files m input_dir (extensions conversion_type)) ->
  exists rel ext stem,
    p = input_dir ++ rel /\
    In ext (extensions conversion_type) /\
    name p = stem +:+ ext /\
    output_path_of input_dir output_dir p
    = Some (output_dir ++ parent rel
              ++ [(if String.eqb stem "" then ext else stem) +:+ ".png"]).
Proof.
  intros H. destruct (discovered_shape _ _ _ _ H) as (rel & ext & stem & -> & N & Hext & Hn).
  exists rel, ext, stem. split; [reflexivity|]. split; [exact Hext|].
  rewrite (name_app _ _ N). split; [exact Hn|].
  destruct (extensions_shape _ _ Hext) as [_ D].
  rewrite output_path_of_below; [|exact N|rewrite Hn; now apply app_not_empty].
  rewrite Hn. destruct (String.eqb_spec stem "") as [->|Hs].
  - change ("" +:+ ext) with ext. now rewrite (stem_of_bare ext (proj1 D)).
  - now rewrite stem_of_app.
Qed.

Lemma output_path_rerooted_with_png_witness :
  exists rel ext stem,
    ["in"; "c"; "photo2.HEIF"] = ["in"] ++ rel /\
    In ext (extensions "HEIC") /\
    name ["in"; "c"; "photo2.HEIF"] = stem +:+ ext /\
    output_path_of ["in"] ["out"] ["in"; "c"; "photo2.HEIF"]
    = Some (["out"] ++ parent rel
              ++ [(if String.eqb stem "" then ext else stem) +:+ ".png"]).
Proof.
  apply (output_path_rerooted_with_png demo_fs ["in"] ["out"] "HEIC"
           ["in"; "c"; "photo2.HEIF"]).
  vm_compute. auto.
Defined.

(** C3, as stated, fails: [img.heic] and [img.heif] of one directory are
    both discovered, are distinct, and map to the same output path. *)
Lemma twin_extensions_collide :
  In ["in"; "img.heic"] (discovered_files twin_fs ["in"] (extensions "HEIC")) /\
  In ["in"; "img.heif"] (discovered_files twin_fs ["in"] (extensions "HEIC")) /\
  ["in"; "img.heic"] <> ["in"; "img.heif"] /\
  output_path_of ["in"] ["out"] ["in"; "img.heic"]
  = output_path_of ["in"] ["out"] ["in"; "img.heif"].
Proof.
  split; [vm_compute; auto|]. split; [vm_compute; auto|].
  split; [discriminate | reflexivity].
Qed.

(** C3, amended.  For a fixed pair of roots, two discovered files map to the
    same output path exactly when they have the same directory and the same
    stem; so the mapping is injective over discovered files that carry the
    same suffix. *)
Theorem output_path_injective_up_to_suffix
    (m : FS) (input_dir output_dir : Path) (conversion_type : string) (p1 p2 : Path) :
  In p1 (discovered_files m input_dir (extensions conversion_type)) ->
  In p2 (discovered_files m input_dir (extensions conversion_type)) ->
  (output_path_of input_dir output_dir p1 = output_path_of input_dir output_dir p2 <->
   parent p1 = parent p2 /\ stem_of (name p1) = stem_of (name p2)) /\
  (suffix p1 = suffix p2 ->
   output_path_of input_dir output_dir p1 = output_path_of input_dir output_dir p2 ->
   p1 = p2).
Proof.
  intros H1 H2.
  destruct (discovered_shape _ _ _ _ H1) as (rel1 & ext1 & stem1 & -> & N1 & Hext1 & Hn1).
  destruct (discovered_shape _ _ _ _ H2) as (rel2 & ext2 & stem2 & -> & N2 & Hext2 & Hn2).
  destruct (extensions_shape _ _ Hext1) as [_ D1].
  destruct (extensions_shape _ _ Hext2) as [_ D2].
  assert (E1 : name rel1 <> "") by (rewrite Hn1; now apply app_not_empty).
  assert (E2 : name rel2 <> "") by (rewrite Hn2; now apply app_not_empty).
  rewrite !output_path_of_below, !parent_app, !name_app by assumption.
  assert (Hiff :
    Some (output_dir ++ parent rel1 ++ [stem_of (name rel1) +:+ ".png"])
    = Some (output_dir ++ parent rel2 ++ [stem_of (name rel2) +:+ ".png"]) <->
    input_dir ++ parent rel1 = input_dir ++ parent rel2 /\
    stem_of (name rel1) = stem_of (name rel2)).
  { split.
    - intros E. injection E as E. apply List.app_inv_head in E.
      apply app_inj_tail in E as [Ep En]. apply app_inv_tail in En.
      now rewrite Ep.
    - intros [Ep En]. apply List.app_inv_head in Ep. now rewrite Ep, En. }
  split; [exact Hiff|].
  unfold suffix. rewrite !name_app by assumption.
  intros Hsfx Hout. apply Hiff in Hout as [Ep En].
  apply List.app_inv_head in Ep. f_equal.
  rewrite <- (parent_name rel1 N1), <- (parent_name rel2 N2), Ep.
  rewrite <- (stem_suffix (name rel1)), <- (stem_suffix (name rel2)), En, Hsfx.
  reflexivity.
Qed.

Lemma output_path_injective_up_to_suffix_witness :
  (output_path_of ["in"] ["out"] ["in"; "a"; "b"; "photo1.heic"]
   = output_path_of ["in"] ["out"] ["in"; "c"; "corrupt.heic"] <->
   parent ["in"; "a"; "b"; "photo1.heic"] = parent ["in"; "c"; "corrupt.heic"] /\
   stem_of (name ["in"; "a"; "b"; "photo1.heic"]) = stem_of (name ["in"; "c"; "corrupt.heic"])) /\
  (suffix ["in"; "a"; "b"; "photo1.heic"] = suffix ["in"; "c"; "corrupt.heic"] ->
   output_path_of ["in"] ["out"] ["in"; "a"; "b"; "photo1.heic"]
   = output_path_of ["in"] ["out"] ["in"; "c"; "corrupt.heic"] ->
   ["in"; "a"; "b"; "photo1.heic"] = ["in"; "c"; "corrupt.heic"]).
Proof.
  apply (output_path_injective_up_to_suffix demo_fs ["in"] ["out"] "HEIC");
    vm_compute; auto.
Defined.

End PathClaims.

(** ** Directory creation *)

Module MkdirFacts.
Import PurePath Py.

Lemma lookup_path_mono (m m' : FS) (p : Path) (k : kind) :
  m ⊆ m' -> lookup_path m p = Some k -> lookup_path m' p = Some k.
Proof.
  intros Hsub. destruct p as [|c p]; simpl; [congruence|].
  intros E. exact (lookup_weaken _ _ _ _ E Hsub).
Qed.

Lemma is_dir_mono (m m' : FS) (p : Path) :
  m ⊆ m' -> is_dir m p = true -> is_dir m' p = true.
Proof.
  intros Hsub. unfold is_dir.
  destruct (lookup_path m p) as [[|]|] eqn:E; try discriminate.
  now rewrite (lookup_path_mono _ _ _ _ Hsub E).
Qed.

Lemma settled_mono (m m' : FS) (p : Path) :
  m ⊆ m' -> settled m p -> settled m' p.
Proof.
  intros Hsub [Hd Hp]. split; [now apply (is_dir_mono m)|].
  destruct (lookup_path m (parent p)) as [k|] eqn:E; [|congruence].
  now rewrite (lookup_path_mono _ _ _ _ Hsub E).
Qed.

Lemma parent_neq (p : Path) : p <> [] -> parent p <> p.
Proof.
  intros N E. apply (f_equal (@length string)) in E. unfold parent in E.
  pose proof (f_equal (@length string) (app_removelast_last "" N)) as L.
  rewrite List.length_app in L. simpl in L. lia.
Qed.

(** [os.mkdir] succeeds exactly by adding a new directory under an existing
    one. *)
Lemma os_mkdir_inr (p : Path) (m m' : FS) :
  os_mkdir p m = inr m' ->
  p <> [] /\ m !! p = None /\ lookup_path m (parent p) = Some Dir /\ m' = <[p := Dir]> m.
Proof.
  unfold os_mkdir.
  destruct (lookup_path m (parent p)) as [[|]|] eqn:Ep; try discriminate.
  destruct (lookup_path m p) as [k|] eqn:E; [discriminate|].
  intros [= <-]. destruct p as [|c p]; [discriminate|]. auto.
Qed.

Lemma os_mkdir_inl (p : Path) (m : FS) (e : exn) :
  os_mkdir p m = inl e ->
  (exn_cls e = FileNotFoundError /\ lookup_path m (parent p) = None) \/
  (exn_cls e <> FileNotFoundError /\ lookup_path m (parent p) <> None).
Proof.
  unfold os_mkdir.
  destruct (lookup_path m (parent p)) as [[|]|] eqn:Ep.
  - intros [= <-]. right. split; discriminate.
  - destruct (lookup_path m p); [|discriminate].
    intros [= <-]. right. split; discriminate.
  - intros [= <-]. left. auto.
Qed.

Lemma os_mkdir_settles (p : Path) (m m' : FS) :
  os_mkdir p m = inr m' -> settled m' p /\ m ⊆ m'.
Proof.
  intros H. apply os_mkdir_inr in H as (N & Hnew & Hpar & ->).
  split; [split|].
  - unfold is_dir, lookup_path. destruct p; [contradiction|].
    now rewrite lookup_insert_eq.
  - destruct (parent p) as [|c q] eqn:E; simpl; [discriminate|].
    rewrite lookup_insert_ne; [simpl in Hpar; congruence|].
    rewrite <- E. intros E'. symmetry in E'. now apply parent_neq in E'.
  - now apply insert_subseteq.
Qed.

Lemma mkdir_here_settles (exist_ok : bool) (p : Path) (m m' : FS) :
  mkdir_here exist_ok p m = inr m' -> settled m' p /\ m ⊆ m'.
Proof.
  unfold mkdir_here. destruct (os_mkdir p m) as [e|m1] eqn:E.
  - destruct (os_mkdir_inl _ _ _ E) as [[C _]|[C Hp]].
    + rewrite C. discriminate.
    + destruct (exn_cls e); try contradiction;
        (destruct (exist_ok && is_dir m p) eqn:B; [|discriminate]);
        intros [= <-]; apply andb_true_iff in B as [_ B];
        (split; [split; assumption | reflexivity]).
  - intros [= <-]. now apply os_mkdir_settles.
Qed.

(** A successful [mkdir(parents=True)] leaves the directory in place and
    removes nothing. *)
Lemma mkdir_parents_settles (rp : list string) :
  forall (exist_ok : bool) (m m' : FS),
    mkdir_parents exist_ok rp m = inr m' -> settled m' (rev rp) /\ m ⊆ m'.
Proof.
  induction rp as [|c rp IH]; intros exist_ok m m'.
  - destruct exist_ok; [|discriminate].
    intros [= <-]. split; [split; [reflexivity | discriminate] | reflexivity].
  - cbn [mkdir_parents]. destruct (os_mkdir (rev (c :: rp)) m) as [e|m1] eqn:E.
    + destruct (os_mkdir_inl _ _ _ E) as [[C _]|[C Hp]].
      * rewrite C. destruct (mkdir_parents true rp m) as [e'|m1] eqn:E1; [discriminate|].
        intros Hh. apply mkdir_here_settles in Hh as [Hs Hsub].
        apply IH in E1 as [_ Hsub1]. split; [exact Hs|].
        now transitivity m1.
      * destruct (exn_cls e); try contradiction;
          (destruct (exist_ok && is_dir m (rev (c :: rp))) eqn:B; [|discriminate]);
          intros [= <-]; apply andb_true_iff in B as [_ B];
          (split; [split; assumption | reflexivity]).
    + intros [= <-]. now apply os_mkdir_settles.
Qed.

Lemma mkdir_settles (p : Path) (m m' : FS) :
  mkdir true true p m = inr m' -> settled m' p /\ m ⊆ m'.
Proof.
  unfold mkdir. intros H. apply mkdir_parents_settles in H.
  now rewrite rev_involutive in H.
Qed.


End MkdirFacts.

(** ** The phases of a run *)

Module RunFacts.
Import PurePath Py Convert MkdirFacts DiscoveryFacts.

Lemma Path_mkdir_eq (p : Path) (s : state) :
  Path_mkdir p s
  = match mkdir true true p (fs s) with
    | inr m' => (Ret tt, State m' (trace s ++ [EMkdir p]))
    | inl e => (Raise e, State (fs s) (trace s ++ [EMkdir p]))
    end.
Proof.
  unfold Path_mkdir, bind, log, on_fs. cbn [fs trace].
  destruct (mkdir true true p (fs s)); reflexivity.
Qed.

Lemma prepare_task_eq (input_dir output_dir file_path : Path) (s : state) :
  prepare_task input_dir output_dir file_path s
  = match output_path_of input_dir output_dir file_path with
    | None => (Raise (Exn ValueError "not in the subpath, or empty name"), s)
    | Some output_path =>
        match mkdir true true (parent output_path) (fs s) with
        | inr m' =>
            (Ret (file_path, output_path),
             State m' (trace s ++ [EMkdir (parent output_path)]))
        | inl e => (Raise e, State (fs s) (trace s ++ [EMkdir (parent output_path)]))
        end
    end.
Proof.
  unfold prepare_task, or_ValueError.
  destruct (output_path_of input_dir output_dir file_path) as [out|]; [|reflexivity].
  unfold bind at 1. unfold ret at 1. unfold bind at 1. rewrite Path_mkdir_eq.
  destruct (mkdir true true (parent out) (fs s)); reflexivity.
Qed.

(** Whatever the preparation loop does, it only asks for directories and
    removes nothing. *)
Lemma prepare_loop_any (input_dir output_dir : Path) (files : list Path) :
  forall s r s',
    for_each (prepare_task input_dir output_dir) files s = (r, s') ->
    fs s ⊆ fs s' /\ exists dirs, trace s' = trace s ++ map EMkdir dirs.
Proof.
  induction files as [|f files IH]; intros s r s'; simpl.
  - intros [= <- <-]. split; [reflexivity|]. exists []. now rewrite List.app_nil_r.
  - unfold bind at 1. rewrite prepare_task_eq.
    destruct (output_path_of input_dir output_dir f) as [out|].
    + destruct (mkdir true true (parent out) (fs s)) as [e|m1] eqn:Em.
      * intros [= <- <-]. split; [reflexivity|]. now exists [parent out].
      * unfold bind at 1.
        destruct (for_each _ files _) as [[tasks|e] s2] eqn:El; intros [= <- <-];
          apply IH in El as [Hsub (dirs & Htr)]; simpl in Hsub, Htr;
          apply mkdir_settles in Em as [_ Hsub1];
          (split; [now transitivity m1|]);
          exists (parent out :: dirs); rewrite Htr, <- (assoc_L (++)); reflexivity.
    + intros [= <- <-]. split; [reflexivity|]. exists []. now rewrite List.app_nil_r.
Qed.

(** When the preparation loop completes there is one task per file, in
    order, each with the output path of its file, and every output parent is
    a directory. *)
Lemma prepare_loop_ret (input_dir output_dir : Path) (files : list Path) :
  forall s tasks s',
    for_each (prepare_task input_dir output_dir) files s = (Ret tasks, s') ->
    map fst tasks = files /\
    Forall (fun t => output_path_of input_dir output_dir (fst t) = Some (snd t)) tasks /\
    Forall (fun t => settled (fs s') (parent (snd t))) tasks /\
    trace s' = trace s ++ map mkdir_event tasks.
Proof.
  induction files as [|f files IH]; intros s tasks s'; simpl.
  - intros [= <- <-]. repeat split; try constructor. now rewrite List.app_nil_r.
  - unfold bind at 1. rewrite prepare_task_eq.
    destruct (output_path_of input_dir output_dir f) as [out|] eqn:Eo; [|discriminate].
    destruct (mkdir true true (parent out) (fs s)) as [e|m1] eqn:Em; [discriminate|].
    unfold bind at 1.
    destruct (for_each _ files _) as [[tasks'|e] s2] eqn:El; [|discriminate].
    intros [= <- <-].
    destruct (prepare_loop_any _ _ _ _ _ _ El) as [Hsub _]. simpl in Hsub.
    apply IH in El as (Hm & Ho & Hs & Htr). simpl in Htr.
    apply mkdir_settles in Em as [Hset _].
    split; [simpl; now rewrite Hm|].
    split; [constructor; assumption|].
    split; [constructor; [simpl; now apply (settled_mono m1) | assumption]|].
    rewrite Htr, <- (assoc_L (++)). reflexivity.
Qed.


(** The loop stops at the first file whose directory cannot be made. *)
Lemma for_each_stops {A B} (f : A -> M B) (pre : list A) (x : A) (post : list A) :
  forall s ys s1 e s2,
    for_each f pre s = (Ret ys, s1) ->
    f x s1 = (Raise e, s2) ->
    for_each f (pre ++ x :: post) s = (Raise e, s2).
Proof.
  induction pre as [|a pre IH]; intros s ys s1 e s2; simpl.
  - intros [= <- <-] Hx. unfold bind at 1. now rewrite Hx.
  - intros H Hx. unfold bind in H at 1. unfold bind at 1.
    destruct (f a s) as [[y|e'] s'] eqn:Ea; [|discriminate].
    unfold bind in H at 1. unfold bind at 1.
    destruct (for_each f pre s') as [[ys'|e'] s''] eqn:El; [|discriminate].
    injection H as <- <-. now rewrite (IH _ _ _ _ _ El Hx).
Qed.

End RunFacts.

(** ** The adapters *)

Module AdapterFacts.
Import PurePath Py Convert.

Lemma silent_ret {A} (a : A) : silent (ret a).
Proof. intros s. reflexivity. Qed.

Lemma silent_on_fs {A} (op : FS -> outcome A * FS) : silent (on_fs op).
Proof. intros s. unfold on_fs. now destruct (op (fs s)). Qed.

Lemma silent_bind {A B} (c : M A) (k : A -> M B) :
  silent c -> (forall a, silent (k a)) -> silent (bind c k).
Proof.
  intros Hc Hk s. unfold bind. specialize (Hc s).
  destruct (c s) as [[a|e] s1]; simpl in *; [|exact Hc].
  now rewrite (Hk a s1).
Qed.

Lemma silent_with_as {R A} (enter : M R) (exit_ : R -> M unit) (body : R -> M A) :
  silent enter -> (forall r, silent (exit_ r)) -> (forall r, silent (body r)) ->
  silent (with_as enter exit_ body).
Proof.
  intros He Hx Hb. unfold with_as. apply silent_bind; [exact He|].
  intros r s. specialize (Hb r s). destruct (body r s) as [[a|e] s1];
    specialize (Hx r s1); destruct (exit_ r s1) as [[u|e'] s2];
    simpl in *; congruence.
Qed.





Section Adapters.
Context `{L : ImageLibs}.

Lemma heic_try_silent (i o : Path) : silent (heic_try i o).
Proof.
  unfold heic_try. apply silent_bind; [|intros; apply silent_ret].
  apply silent_with_as; intros; apply silent_on_fs.
Qed.

Lemma cr2_try_silent (i o : Path) : silent (cr2_try i o).
Proof.
  unfold cr2_try. apply silent_bind; [|intros; apply silent_ret].
  apply silent_with_as; try (intros; apply silent_on_fs).
  intros img.
  repeat (apply silent_bind; [try apply silent_on_fs | intros]).
  - match goal with |- silent (if ?b then _ else _) => destruct b end;
      [apply silent_on_fs | apply silent_ret].
  - apply silent_on_fs.
Qed.



(** What [try: ... return True / except Exception as e: print; return False]
    makes of its block. *)
Lemma guarded_eq (block : M bool) (input_path : Path) (s : state) :
  try_except_Exception block (report input_path) s
  = match block s with
    | (Ret b, s1) => (Ret b, s1)
    | (Raise e, s1) =>
        if is_Exception (exn_cls e)
        then (Ret false,
              State (fs s1)
                (trace s1 ++ [EPrint ("Erro ao converter " +:+ path_str input_path
                                      +:+ ": " +:+ exn_text e)]))
        else (Raise e, s1)
    end.
Proof.
  unfold try_except_Exception. destruct (block s) as [[b|e] s1]; [reflexivity|].
  destruct (is_Exception (exn_cls e)); reflexivity.
Qed.

Lemma guarded_prints_only (block : Path -> Path -> M bool) :
  (forall i o, silent (block i o)) ->
  prints_only (fun i o => try_except_Exception (block i o) (report i)).
Proof.
  intros Hs i o s. rewrite guarded_eq. specialize (Hs i o s).
  destruct (block i o s) as [[b|e] s1]; simpl in Hs.
  - exists []. simpl. now rewrite List.app_nil_r.
  - destruct (is_Exception (exn_cls e)).
    + eexists [_]. simpl. now rewrite Hs.
    + exists []. simpl. now rewrite List.app_nil_r.
Qed.

Lemma conversion_func_prints_only (conversion_type : string) :
  prints_only (conversion_func conversion_type).
Proof.
  unfold conversion_func. destruct (String.eqb conversion_type "HEIC").
  - apply (guarded_prints_only heic_try), heic_try_silent.
  - apply (guarded_prints_only cr2_try), cr2_try_silent.
Qed.



End Adapters.

End AdapterFacts.

(** ** The worker pool *)

Module PoolFacts.
Import PurePath Py Convert.

Lemma submit_all_eq (tasks : list (Path * Path)) :
  forall (n : nat) (s : state),
  exists futures,
    submit_all n tasks s
    = (Ret futures, State (fs s) (trace s ++ map submit_event tasks)) /\
    length futures = length tasks.
Proof.
  induction tasks as [|[i o] tasks IH]; intros n s.
  - exists []. simpl. unfold ret. rewrite List.app_nil_r. now destruct s.
  - simpl. unfold bind at 1, log at 1.
    destruct (IH (S n) (State (fs s) (trace s ++ [ESubmit i o]))) as (futs & E & Len).
    unfold bind at 1. rewrite E. eexists. split.
    + unfold ret. cbn [fs trace]. rewrite <- (assoc_L (++)). reflexivity.
    + simpl. now rewrite Len.
Qed.

(** The workers never raise into the main thread; each leaves one completed
    future behind. *)
Lemma workers_eq (convert : Path -> Path -> M bool) (futs : list future) :
  prints_only convert ->
  forall s, exists completed s' lines,
    for_each (run_worker convert) futs s = (Ret completed, s') /\
    length completed = length futs /\
    trace s' = trace s ++ map EPrint lines.
Proof.
  intros P. induction futs as [|fut futs IH]; intros s.
  - exists [], s, []. simpl. now rewrite List.app_nil_r.
  - simpl. unfold bind at 1, run_worker at 1.
    destruct (P (fut_input fut) (fut_output fut) s) as (lines1 & H1).
    destruct (convert (fut_input fut) (fut_output fut) s) as [r s1]. simpl in H1.
    destruct (IH s1) as (completed & s2 & lines2 & E & Len & Htr).
    unfold bind at 1. rewrite E.
    exists ((fut, r) :: completed), s2, (lines1 ++ lines2).
    split; [reflexivity|]. split; [simpl; now rewrite Len|].
    now rewrite Htr, H1, map_app, (assoc_L (++)).
Qed.

Lemma returned_split (completed : list (future * outcome bool)) :
  Forall (fun c => exists b, snd c = Ret b) completed ->
  length (List.filter (returned true) completed)
  + length (List.filter (returned false) completed)
  = length completed.
Proof.
  induction 1 as [|[fut r] completed (b & Hb) _ IH]; [reflexivity|].
  simpl in Hb. subst r. cbn [List.filter].
  change (returned true (fut, Ret b)) with (Bool.eqb true b).
  change (returned false (fut, Ret b)) with (Bool.eqb false b).
  destruct b; simpl; lia.
Qed.

(** The counting loop: one progress step per future it gets through, and,
    when it gets through all of them, each result counted once, on the side
    its value says. *)
Lemma tally_spec (completed : list (future * outcome bool)) :
  forall (a f : nat) (s : state) r s',
    tally completed a f s = (r, s') ->
    exists k,
      fs s' = fs s /\
      trace s' = trace s ++ repeat EPbarUpdate k /\
      forall a' f', r = Ret (a', f') ->
        k = length completed /\
        a' = a + length (List.filter (returned true) completed) /\
        f' = f + length (List.filter (returned false) completed) /\
        a' + f' = a + f + length completed.
Proof.
  induction completed as [|[fut [b|e]] completed IH]; intros a f s r s'.
  - simpl. intros [= <- <-]. exists 0. simpl. rewrite List.app_nil_r.
    split; [reflexivity|]. split; [reflexivity|].
    intros a' f' [= <- <-]. lia.
  - cbn [tally future_result]. unfold bind at 1, ret at 1.
    unfold bind at 1, log at 1. intros H.
    apply IH in H as (k & Hfs & Htr & Hr). cbn [fs trace] in Hfs, Htr.
    exists (S k). split; [exact Hfs|].
    split; [rewrite Htr, <- (assoc_L (++)); reflexivity|].
    intros a' f' Er. destruct (Hr a' f' Er) as (-> & -> & -> & Hsum).
    cbn [List.filter].
    change (returned true (fut, Ret b)) with (Bool.eqb true b).
    change (returned false (fut, Ret b)) with (Bool.eqb false b).
    destruct b; simpl; repeat split; lia.
  - cbn [tally future_result]. unfold bind at 1, raise at 1.
    intros [= <- <-]. exists 0. simpl. rewrite List.app_nil_r.
    split; [reflexivity|]. split; [reflexivity|]. discriminate.
Qed.

Section Pool.
Context `{L : ImageLibs}.
Variable as_completed : forall A : Type, list A -> list A.

(** The pool block either refuses a non-positive size, before anything is
    submitted, or submits every task, lets the workers print, steps the
    progress bar and shuts down; when it returns, the two counters add up to
    the number of futures that completed. *)
Lemma run_pool_spec (convert : Path -> Path -> M bool) (max_workers : Z)
    (tasks : list (Path * Path)) (s : state) r s' :
  prints_only convert ->
  run_pool as_completed convert max_workers tasks s = (r, s') ->
  ((max_workers <= 0)%Z /\ s' = s /\ exists e, r = Raise e) \/
  ((0 < max_workers)%Z /\
   exists futs lines k,
     length futs = length tasks /\
     trace s' = trace s ++ [EPool max_workers] ++ map submit_event tasks
                ++ map EPrint lines ++ [EPbar (length tasks)]
                ++ repeat EPbarUpdate k ++ [EPbarClose; EShutdown] /\
     forall a f, r = Ret (a, f) ->
       a + f = k /\ k = length (as_completed future futs)).
Proof.
  intros P. unfold run_pool, with_as. unfold bind at 1. unfold ThreadPoolExecutor.
  destruct (Z.leb_spec max_workers 0) as [Hle|Hlt].
  - unfold raise. intros [= <- <-]. left. eauto.
  - unfold log at 1. unfold bind at 1.
    destruct (submit_all_eq tasks 0 (State (fs s) (trace s ++ [EPool max_workers])))
      as (futs & Es & Lf).
    rewrite Es. cbn [fs trace]. unfold bind at 1.
    destruct (workers_eq convert (as_completed future futs) P
                (State (fs s) ((trace s ++ [EPool max_workers]) ++ map submit_event tasks)))
      as (completed & s2 & lines & Ew & Lc & Htr2).
    rewrite Ew. cbn [fs trace] in Htr2.
    unfold bind at 1, log at 1.
    destruct (tally completed 0 0 _) as [rt s3] eqn:Et.
    apply tally_spec in Et as (k & Hfs & Htr3 & Hr). cbn [fs trace] in Hfs, Htr3.
    intros H. right. split; [exact Hlt|]. exists futs, lines, k.
    split; [exact Lf|].
    destruct rt as [[a f]|e]; unfold log in H; cbn [fs trace] in H;
      injection H as <- <-; cbn [trace]; rewrite Htr3, Htr2.
    + split; [now rewrite <- !(assoc_L (++))|].
      intros a' f' [= <- <-]. destruct (Hr a f eq_refl) as (Hk & _ & _ & Hsum).
      split; lia.
    + split; [now rewrite <- !(assoc_L (++))|]. discriminate.
Qed.

(** The run, phase by phase. *)
Lemma run_pipeline_eq (exts : list string) (label : string)
    (convert : Path -> Path -> M bool)
    (input_dir output_dir : Path) (max_workers : Z) (s : state) :
  run_pipeline as_completed exts label convert input_dir output_dir max_workers s
  = match mkdir true true output_dir (fs s) with
    | inl e => (Raise e, State (fs s) (trace s ++ [EMkdir output_dir]))
    | inr m1 =>
        let tr1 :=
          (trace s ++ [EMkdir output_dir])
          ++ map (fun ext => EGlob input_dir ("**/*" +:+ ext)) exts in
        match discovered_files m1 input_dir exts with
        | [] =>
            (Ret tt,
             State m1 (tr1 ++ [EPrint ("Nenhum arquivo " +:+ label +:+ " encontrado!")]))
        | f :: more =>
            match
              for_each (prepare_task input_dir output_dir) (f :: more)
                (State m1
                   (tr1 ++ [EPrint ("Encontrados " +:+ pretty (length (f :: more))
                                    +:+ " arquivos " +:+ label)]))
            with
            | (Raise e, s3) => (Raise e, s3)
            | (Ret tasks, s3) =>
                match run_pool as_completed convert max_workers tasks s3 with
                | (Raise e, s4) => (Raise e, s4)
                | (Ret counts, s4) =>
                    (Ret tt,
                     State (fs s4)
                       (trace s4
                        ++ [EPrint (newline +:+ "Conversão concluída!");
                            EPrint ("Convertidas com sucesso: " +:+ pretty (fst counts));
                            EPrint ("Falhas na conversão: " +:+ pretty (snd counts))]))
                end
            end
        end
    end.
Proof.
  unfold run_pipeline. unfold bind at 1. rewrite RunFacts.Path_mkdir_eq.
  destruct (mkdir true true output_dir (fs s)) as [e|m1]; [reflexivity|].
  unfold bind at 1. rewrite DiscoveryFacts.discover_spec. cbn [fs trace].
  destruct (discovered_files m1 input_dir exts) as [|f more]; [reflexivity|].
  unfold bind at 1, print at 1, log at 1. cbn [fs trace].
  unfold bind at 1.
  destruct (for_each (prepare_task input_dir output_dir) (f :: more) _)
    as [[tasks|e] s3]; [|reflexivity].
  unfold bind at 1.
  destruct (run_pool as_completed convert max_workers tasks s3)
    as [[counts|e] s4]; [|reflexivity].
  unfold bind, print, log. cbn [fs trace].
  now rewrite <- !(assoc_L (++)).
Qed.

End Pool.

End PoolFacts.

(** ** Reading traces *)

Module TraceFacts.
Import PurePath Py Convert.

Lemma submitted_app (a b : list event) : submitted (a ++ b) = submitted a ++ submitted b.
Proof.
  induction a as [|ev a IH]; [reflexivity|].
  destruct ev; simpl; rewrite IH; reflexivity.
Qed.


Lemma submitted_submits (tasks : list (Path * Path)) :
  submitted (map submit_event tasks) = tasks.
Proof.
  induction tasks as [|[i o] tasks IH]; [reflexivity|].
  simpl. now rewrite IH.
Qed.


Lemma submitted_mkdir_events (tasks : list (Path * Path)) :
  submitted (map mkdir_event tasks) = [].
Proof. induction tasks; [reflexivity | exact IHtasks]. Qed.

Lemma submitted_globs (root : Path) (exts : list string) :
  submitted (map (fun ext => EGlob root ("**/*" +:+ ext)) exts) = [].
Proof. induction exts; [reflexivity | exact IHexts]. Qed.

Lemma submitted_prints (lines : list string) : submitted (map EPrint lines) = [].
Proof. induction lines; [reflexivity | exact IHlines]. Qed.

Lemma submitted_updates (k : nat) : submitted (repeat EPbarUpdate k) = [].
Proof. induction k; [reflexivity | exact IHk]. Qed.












End TraceFacts.

(** ** Claims on the adapters *)

Module AdapterClaims.
Import PurePath Py Convert Demo AdapterFacts.




(** On a standard output that encodes every line the adapters are the ones
    the pipeline runs. *)
Lemma adapters_on_any_line `{L : ImageLibs} (input_path output_path : Path) :
  convert_heic_to_png_on (fun _ => true) input_path output_path
  = convert_heic_to_png input_path output_path /\
  convert_cr2_to_png_on (fun _ => true) input_path output_path
  = convert_cr2_to_png input_path output_path.
Proof. split; reflexivity. Qed.





End AdapterClaims.

(** ** The run as a whole *)

Module PipelineFacts.
Import PurePath Py Convert MkdirFacts RunFacts PoolFacts TraceFacts.



Section Pipeline.
Context `{L : ImageLibs}.
Variable as_completed : forall A : Type, list A -> list A.
Variables (exts : list string) (label : string) (convert : Path -> Path -> M bool).
Variables (input_dir output_dir : Path) (max_workers : Z).
Hypothesis convert_prints_only : prints_only convert.

Local Abbreviation run :=
  (run_pipeline as_completed exts label convert input_dir output_dir max_workers).

(** With no file found the run is: make the output root, glob, print the
    notice, return. *)
Lemma run_no_files (s : state) (m1 : FS) :
  mkdir true true output_dir (fs s) = inr m1 ->
  discovered_files m1 input_dir exts = [] ->
  run s
  = (Ret tt,
     State m1 (trace s ++ EMkdir output_dir :: glob_events input_dir exts
               ++ [EPrint ("Nenhum arquivo " +:+ label +:+ " encontrado!")])).
Proof.
  intros Hm Hf. rewrite run_pipeline_eq, Hm. cbn zeta. rewrite Hf.
  unfold glob_events. now rewrite <- !(assoc_L (++)).
Qed.




(** An exception of the preparation loop is the outcome of the run. *)
Lemma run_prepare_raises (s : state) (m1 : FS) (e : exn) (s3 : state) :
  mkdir true true output_dir (fs s) = inr m1 ->
  discovered_files m1 input_dir exts <> [] ->
  for_each (prepare_task input_dir output_dir) (discovered_files m1 input_dir exts)
    (State m1 (found_trace input_dir output_dir exts label s
                 (discovered_files m1 input_dir exts)))
  = (Raise e, s3) ->
  run s = (Raise e, s3).
Proof.
  intros Hm Hne Hl. rewrite run_pipeline_eq, Hm. cbn zeta.
  destruct (discovered_files m1 input_dir exts) as [|f more]; [contradiction|].
  match goal with
  | |- context [State m1 ?tr] =>
      replace tr with (found_trace input_dir output_dir exts label s (f :: more))
  end.
  - now rewrite Hl.
  - unfold found_trace, glob_events. rewrite <- !(assoc_L (++)). reflexivity.
Qed.

Hypothesis as_completed_perm :
  forall (A : Type) (l : list A), Permutation l (as_completed A l).

(** A run that finds files and returns has submitted one task per file, in
    the order of discovery, and ends on the three lines of the tally, whose
    two counts add up to the number of submitted tasks. *)
Lemma run_complete (s : state) (m1 : FS) (s' : state) :
  mkdir true true output_dir (fs s) = inr m1 ->
  discovered_files m1 input_dir exts <> [] ->
  run s = (Ret tt, s') ->
  exists successful failed events,
    trace s'
    = trace s ++ events
      ++ [EPrint (newline +:+ "Conversão concluída!");
          EPrint ("Convertidas com sucesso: " +:+ pretty successful);
          EPrint ("Falhas na conversão: " +:+ pretty failed)] /\
    successful + failed = length (submitted events) /\
    map fst (submitted events) = discovered_files m1 input_dir exts.
Proof.
  intros Hm Hne. rewrite run_pipeline_eq, Hm. cbn zeta.
  fold (glob_events input_dir exts).
  destruct (discovered_files m1 input_dir exts) as [|f more]; [contradiction|].
  destruct (for_each _ (f :: more) _) as [[tasks|e] s3] eqn:El; [|discriminate].
  apply prepare_loop_ret in El as (Hfst & _ & _ & Htr). cbn [fs trace] in Htr.
  destruct (run_pool _ _ _ tasks s3) as [[[a b]|e] s4] eqn:Ep; [|discriminate].
  destruct (run_pool_spec _ _ _ _ _ _ _ convert_prints_only Ep)
    as [(_ & _ & e & He)|(_ & futs & lines & k & Lf & Htr4 & Hr)]; [discriminate|].
  destruct (Hr a b eq_refl) as [Hsum Hk].
  intros [= <-]. cbn [trace fst snd].
  exists a, b.
  exists ([EMkdir output_dir] ++ glob_events input_dir exts
          ++ [EPrint ("Encontrados " +:+ pretty (length (f :: more))
                      +:+ " arquivos " +:+ label)]
          ++ map mkdir_event tasks
          ++ [EPool max_workers] ++ map submit_event tasks
          ++ map EPrint lines ++ [EPbar (length tasks)]
          ++ repeat EPbarUpdate k ++ [EPbarClose; EShutdown]).
  split; [rewrite Htr4, Htr, <- !(assoc_L (++)); reflexivity|].
  rewrite !submitted_app. unfold glob_events.
  rewrite submitted_globs, submitted_mkdir_events, submitted_submits,
    submitted_prints, submitted_updates.
  cbn [submitted app]. rewrite List.app_nil_r.
  split; [|exact Hfst].
  rewrite Hsum, Hk, <- Lf. symmetry. apply Permutation_length, as_completed_perm.
Qed.

End Pipeline.

End PipelineFacts.

(** ** Claims on the run *)

Module RunClaims.
Import PurePath Py Convert Demo.
Import MkdirFacts RunFacts AdapterFacts PoolFacts TraceFacts PipelineFacts.

(** C1.  For any completion order, a run of [process_directory] that finds
    at least one file and returns has submitted one task per discovered
    file, in the order of discovery, and ends by printing the two counters,
    whose sum is the number of submitted tasks; and the counting loop adds
    every completed result to exactly one counter: to [successful] when it
    is [True], to [failed] when it is [False]. *)
Theorem tally_accounts_for_every_task `{L : ImageLibs}
    (as_completed : forall A : Type, list A -> list A)
    (input_dir output_dir : Path) (conversion_type : string) (max_workers : Z)
    (s : state) (m1 : FS) (s' : state) :
  (forall (A : Type) (l : list A), Permutation l (as_completed A l)) ->
  mkdir true true output_dir (fs s) = inr m1 ->
  discovered_files m1 input_dir (extensions conversion_type) <> [] ->
  process_directory as_completed input_dir output_dir conversion_type max_workers s
  = (Ret tt, s') ->
  (exists successful failed events,
      trace s'
      = trace s ++ events
        ++ [EPrint (newline +:+ "Conversão concluída!");
            EPrint ("Convertidas com sucesso: " +:+ pretty successful);
            EPrint ("Falhas na conversão: " +:+ pretty failed)] /\
      successful + failed = length (submitted events) /\
      length (submitted events)
      = length (discovered_files m1 input_dir (extensions conversion_type)) /\
      map fst (submitted events)
      = discovered_files m1 input_dir (extensions conversion_type)) /\
  (forall completed a f st a' f' st',
      tally completed a f st = (Ret (a', f'), st') ->
      a' = a + length (List.filter (returned true) completed) /\
      f' = f + length (List.filter (returned false) completed) /\
      length (List.filter (returned true) completed)
      + length (List.filter (returned false) completed)
      = length completed).
Proof.
  intros Hperm Hm Hne Hrun. split.
  - unfold process_directory in Hrun.
    destruct (run_complete as_completed _ _ _ _ _ _
                (conversion_func_prints_only conversion_type) Hperm s m1 s' Hm Hne Hrun)
      as (a & b & events & Htr & Hsum & Hfst).
    exists a, b, events. repeat split; try assumption.
    rewrite <- Hfst. now rewrite length_map.
  - intros completed a f st a' f' st' Ht.
    apply tally_spec in Ht as (k & _ & _ & Hr).
    destruct (Hr a' f' eq_refl) as (_ & Ha & Hf & Hsum). repeat split; lia.
Qed.

Lemma tally_accounts_for_every_task_witness :
  (exists successful failed events,
      trace demo_final
      = trace demo_state ++ events
        ++ [EPrint (newline +:+ "Conversão concluída!");
            EPrint ("Convertidas com sucesso: " +:+ pretty successful);
            EPrint ("Falhas na conversão: " +:+ pretty failed)] /\
      successful + failed = length (submitted events) /\
      length (submitted events)
      = length (discovered_files demo_fs_out ["in"] (extensions "HEIC")) /\
      map fst (submitted events)
      = discovered_files demo_fs_out ["in"] (extensions "HEIC")) /\
  (forall completed a f st a' f' st',
      tally completed a f st = (Ret (a', f'), st') ->
      a' = a + length (List.filter (returned true) completed) /\
      f' = f + length (List.filter (returned false) completed) /\
      length (List.filter (returned true) completed)
      + length (List.filter (returned false) completed)
      = length completed).
Proof.
  apply (@tally_accounts_for_every_task demo_libs demo_order ["in"] ["out"] "HEIC" 4%Z
           demo_state demo_fs_out demo_final).
  - intros A l. apply Permutation_rev.
  - vm_compute. reflexivity.
  - vm_compute. discriminate.
  - vm_compute. reflexivity.
Defined.

(** C6.  When the output root can be made and discovery finds nothing,
    [process_directory] prints the notice and returns normally: the trace
    holds the [mkdir], the globs and the notice, and so neither a pool nor a
    submission nor a tally. *)
Theorem no_files_short_circuits `{L : ImageLibs}
    (as_completed : forall A : Type, list A -> list A)
    (input_dir output_dir : Path) (conversion_type : string) (max_workers : Z)
    (s : state) (m1 : FS) :
  mkdir true true output_dir (fs s) = inr m1 ->
  discovered_files m1 input_dir (extensions conversion_type) = [] ->
  let events :=
    EMkdir output_dir :: glob_events input_dir (extensions conversion_type)
    ++ [EPrint ("Nenhum arquivo " +:+ conversion_type +:+ " encontrado!")] in
  process_directory as_completed input_dir output_dir conversion_type max_workers s
  = (Ret tt, State m1 (trace s ++ events)) /\
  submitted events = [] /\
  (forall n, ~ In (EPool n) events) /\
  (forall line, In (EPrint line) events ->
                line = "Nenhum arquivo " +:+ conversion_type +:+ " encontrado!").
Proof.
  intros Hm Hf events. split.
  - unfold process_directory. now apply run_no_files.
  - unfold events, glob_events.
    split; [cbn [submitted]; rewrite submitted_app, submitted_globs; reflexivity|].
    split.
    + intros n [E|Hin]; [discriminate|].
      apply in_app_or in Hin as [Hin|[E|[]]]; [|discriminate].
      apply in_map_iff in Hin as (ext & E & _). discriminate.
    + intros line [E|Hin]; [discriminate|].
      apply in_app_or in Hin as [Hin|[E|[]]]; [|congruence].
      apply in_map_iff in Hin as (ext & E & _). discriminate.
Qed.

Lemma no_files_short_circuits_witness :
  let events :=
    EMkdir ["out"] :: glob_events ["in"] (extensions "CR2")
    ++ [EPrint ("Nenhum arquivo " +:+ "CR2" +:+ " encontrado!")] in
  @process_directory demo_libs demo_order ["in"] ["out"] "CR2" 4%Z demo_state
  = (Ret tt, State demo_fs_out (trace demo_state ++ events)) /\
  submitted events = [] /\
  (forall n, ~ In (EPool n) events) /\
  (forall line, In (EPrint line) events ->
                line = "Nenhum arquivo " +:+ "CR2" +:+ " encontrado!").
Proof.
  apply (@no_files_short_circuits demo_libs demo_order ["in"] ["out"] "CR2" 4%Z
           demo_state demo_fs_out); vm_compute; reflexivity.
Defined.

(** C7, as stated, fails: with [out/a] a regular file, the directory of the
    task for [in/a/x.heic] cannot be made; the run raises the
    [FileExistsError], after the directory of the task for [in/b/y.heic] was
    made, and submits nothing and prints no tally. *)
Lemma blocked_directory_aborts_run :
  @process_directory demo_libs demo_order ["in"] ["out"] "HEIC" 4%Z (State blocked_fs [])
  = (Raise (Exn FileExistsError "[Errno 17] File exists: 'out/a'"),
     State (<[ ["out"; "b"] := Dir ]> blocked_fs)
       [EMkdir ["out"]; EGlob ["in"] "**/*.heic"; EGlob ["in"] "**/*.HEIC";
        EGlob ["in"] "**/*.heif"; EGlob ["in"] "**/*.HEIF";
        EPrint "Encontrados 2 arquivos HEIC";
        EMkdir ["out"; "b"]; EMkdir ["out"; "a"]]).
Proof. vm_compute. reflexivity. Qed.

(** C7, amended.  When the directory of one task cannot be made, the
    exception leaves [process_directory]: the run ends there, after the
    directories of the earlier tasks were made, and nothing is submitted. *)
Theorem mkdir_failure_aborts_run `{L : ImageLibs}
    (as_completed : forall A : Type, list A -> list A)
    (input_dir output_dir : Path) (conversion_type : string) (max_workers : Z)
    (s : state) (m1 : FS) (pre : list Path) (f : Path) (post : list Path)
    (tasks : list (Path * Path)) (s_mid : state) (out : Path) (e : exn) :
  mkdir true true output_dir (fs s) = inr m1 ->
  discovered_files m1 input_dir (extensions conversion_type) = pre ++ f :: post ->
  for_each (prepare_task input_dir output_dir) pre
    (State m1 (found_trace input_dir output_dir (extensions conversion_type)
                 conversion_type s (pre ++ f :: post)))
  = (Ret tasks, s_mid) ->
  output_path_of input_dir output_dir f = Some out ->
  mkdir true true (parent out) (fs s_mid) = inl e ->
  process_directory as_completed input_dir output_dir conversion_type max_workers s
  = (Raise e, State (fs s_mid) (trace s_mid ++ [EMkdir (parent out)])) /\
  trace s_mid
  = found_trace input_dir output_dir (extensions conversion_type)
      conversion_type s (pre ++ f :: post) ++ map mkdir_event tasks /\
  submitted (trace s_mid ++ [EMkdir (parent out)]) = submitted (trace s).
Proof.
  intros Hm Hfiles Hpre Hout Hfail.
  assert (Hf : prepare_task input_dir output_dir f s_mid
               = (Raise e, State (fs s_mid) (trace s_mid ++ [EMkdir (parent out)])))
    by now rewrite prepare_task_eq, Hout, Hfail.
  pose proof (for_each_stops _ pre f post _ _ _ _ _ Hpre Hf) as Hl.
  destruct (prepare_loop_ret _ _ _ _ _ _ Hpre) as (_ & _ & _ & Htr).
  cbn [trace] in Htr. split; [|split; [exact Htr|]].
  - unfold process_directory. apply (run_prepare_raises _ _ _ _ _ _ _ s m1).
    + exact Hm.
    + rewrite Hfiles. now destruct pre.
    + rewrite Hfiles. exact Hl.
  - rewrite Htr. unfold found_trace, glob_events.
    rewrite !submitted_app. cbn [submitted].
    rewrite !submitted_app, submitted_globs, submitted_mkdir_events.
    cbn [submitted app]. now rewrite !List.app_nil_r.
Qed.

Lemma mkdir_failure_aborts_run_witness :
  @process_directory demo_libs demo_order ["in"] ["out"] "HEIC" 4%Z blocked_start
  = (Raise (Exn FileExistsError "[Errno 17] File exists: 'out/a'"),
     State (fs blocked_mid) (trace blocked_mid ++ [EMkdir (parent ["out"; "a"; "x.png"])])) /\
  trace blocked_mid
  = found_trace ["in"] ["out"] (extensions "HEIC") "HEIC" blocked_start
      ([ ["in"; "b"; "y.heic"] ] ++ ["in"; "a"; "x.heic"] :: [])
    ++ map mkdir_event [ (["in"; "b"; "y.heic"], ["out"; "b"; "y.png"]) ] /\
  submitted (trace blocked_mid ++ [EMkdir (parent ["out"; "a"; "x.png"])])
  = submitted (trace blocked_start).
Proof.
  apply (@mkdir_failure_aborts_run demo_libs demo_order ["in"] ["out"] "HEIC" 4%Z
           blocked_start blocked_fs
           [ ["in"; "b"; "y.heic"] ] ["in"; "a"; "x.heic"] []
           [ (["in"; "b"; "y.heic"], ["out"; "b"; "y.png"]) ]
           blocked_mid ["out"; "a"; "x.png"]
           (Exn FileExistsError "[Errno 17] File exists: 'out/a'"));
    vm_compute; reflexivity.
Defined.



End RunClaims.

(** * Further properties *)

(** ** The output path and the discovery list *)

Module PathProps.
Import PurePath Py Convert Demo PurePathFacts DiscoveryFacts PathMapFacts.

Lemma invalid_suffix_png : invalid_suffix ".png" = false.
Proof. reflexivity. Qed.

Lemma name_nil : name [] = "".
Proof. reflexivity. Qed.

Lemma output_path_of_shape (input_dir output_dir p out : Path) :
  output_path_of input_dir output_dir p = Some out ->
  exists rel,
    p = input_dir ++ rel /\ name rel <> "" /\
    out = output_dir ++ parent rel ++ [stem_of (name rel) +:+ ".png"].
Proof.
  unfold output_path_of.
  destruct (relative_to p input_dir) as [rel|] eqn:Er; [|discriminate].
  apply relative_to_Some in Er. unfold with_suffix, joinpath.
  rewrite invalid_suffix_png.
  destruct (String.eqb_spec (name rel) "") as [E|N]; [discriminate|].
  intros [= <-]. exists rel. now rewrite replace_suffix_stem.
Qed.

(** The output path is defined exactly for the paths below the input root
    that have a name, and is then the output root, the relative directory
    and the stem with [.png]; for any other path the two source lines raise
    [ValueError]. *)
Theorem output_path_of_defined_iff (input_dir output_dir p out : Path) :
  output_path_of input_dir output_dir p = Some out <->
  exists rel,
    p = input_dir ++ rel /\ name rel <> "" /\
    out = output_dir ++ parent rel ++ [stem_of (name rel) +:+ ".png"].
Proof.
  split.
  - apply output_path_of_shape.
  - intros (rel & -> & N & ->). apply output_path_of_below; [|exact N].
    intros ->. now apply N.
Qed.

Lemma last_char_app (a b : string) (d : ascii) :
  b <> "" ->
  List.last (list_ascii_of_string (a +:+ b)) d = List.last (list_ascii_of_string b) d.
Proof.
  intros N. rewrite to_list_app.
  induction (list_ascii_of_string a) as [|c l IH]; [reflexivity|].
  simpl. destruct (l ++ list_ascii_of_string b) eqn:E; [|exact IH].
  apply app_eq_nil in E as [_ E]. destruct b; [contradiction | discriminate].
Qed.

(** An output path is never one of the discovered inputs, of either format
    and on any file system: a name that ends with [.png] ends with none of
    the listed extensions. *)
Theorem outputs_are_never_inputs
    (input_dir output_dir p out : Path) (m : FS) (root : Path) (conversion_type : string) :
  output_path_of input_dir output_dir p = Some out ->
  ~ In out (discovered_files m root (extensions conversion_type)).
Proof.
  intros Ho Hin. apply output_path_of_shape in Ho as (rel & _ & _ & ->).
  apply discovered_files_spec in Hin as (_ & ext & Hext & Hm).
  destruct (extensions_shape _ _ Hext) as [Hlit _].
  apply (fnmatch_star_literal ext _ Hlit) in Hm as (stem & Hstem).
  rewrite (assoc_L (++)), (name_app _ [_]) in Hstem by discriminate.
  change (name [stem_of (name rel) +:+ ".png"]) with (stem_of (name rel) +:+ ".png") in Hstem.
  apply (f_equal (fun x => List.last (list_ascii_of_string x) "000"%char)) in Hstem.
  rewrite (last_char_app _ ".png") in Hstem by discriminate.
  unfold extensions in Hext.
  destruct (String.eqb conversion_type "HEIC"); simpl in Hext;
    repeat (destruct Hext as [<-|Hext];
            [rewrite last_char_app in Hstem by discriminate; discriminate|]);
    destruct Hext.
Qed.

Lemma outputs_are_never_inputs_witness :
  ~ In ["out"; "c"; "photo2.png"]
       (discovered_files demo_final_fs ["out"] (extensions "HEIC")).
Proof.
  apply (outputs_are_never_inputs ["in"] ["out"] ["in"; "c"; "photo2.HEIF"]).
  reflexivity.
Defined.

Lemma NoDup_flat_map {A B} (f : A -> list B) (l : list A) :
  List.NoDup l ->
  (forall x, In x l -> List.NoDup (f x)) ->
  (forall x y b, In x l -> In y l -> In b (f x) -> In b (f y) -> x = y) ->
  List.NoDup (flat_map f l).
Proof.
  induction l as [|a l IH]; intros Hl Hf Hd; [constructor|].
  inversion Hl as [|? ? Hnotin Hl']; subst. simpl.
  apply List.NoDup_app.
  - apply Hf. now left.
  - apply IH; [exact Hl' | intros; apply Hf; now right |].
    intros x y b Hx Hy. apply Hd; now right.
  - intros b Hb Hb'. apply in_flat_map in Hb' as (y & Hy & Hby).
    assert (a = y) by (apply (Hd a y b); [now left | now right | assumption..]).
    subst y. contradiction.
Qed.

Lemma glob_recursive_NoDup (m : FS) (root : Path) (pat : string) :
  List.NoDup (glob_recursive m root pat).
Proof.
  unfold glob_recursive. destruct (is_dir m root); [|constructor].
  apply List.NoDup_filter, NoDup_ListNoDup, NoDup_fst_map_to_list.
Qed.

(** Two endings of one name that have the same length are the same. *)
Lemma same_ending (a b c d : string) :
  a +:+ b = c +:+ d -> String.length b = String.length d -> b = d.
Proof.
  intros E Hlen. apply to_list_inj.
  apply (f_equal list_ascii_of_string) in E. rewrite !to_list_app in E.
  assert (Hl : forall x, length (list_ascii_of_string x) = String.length x).
  { induction x as [|ch x IH]; simpl; [reflexivity | now rewrite IH]. }
  apply app_inj_2 in E; [tauto|]. now rewrite !Hl.
Qed.

Lemma extensions_same_length (conversion_type e1 e2 : string) :
  In e1 (extensions conversion_type) -> In e2 (extensions conversion_type) ->
  String.length e1 = String.length e2.
Proof.
  unfold extensions. destruct (String.eqb conversion_type "HEIC"); simpl;
    intros H1 H2;
    repeat (destruct H1 as [<-|H1]; [|]); try destruct H1;
    repeat (destruct H2 as [<-|H2]; [|]); try destruct H2; reflexivity.
Qed.

Lemma extensions_NoDup (conversion_type : string) :
  List.NoDup (extensions conversion_type).
Proof.
  unfold extensions. destruct (String.eqb conversion_type "HEIC");
    repeat constructor; simpl; intuition discriminate.
Qed.

(** No entry is discovered twice: every glob lists an entry at most once,
    and no name ends with two of the listed extensions.  So no file is
    converted twice in one run. *)
Theorem discovered_files_NoDup (m : FS) (input_dir : Path) (conversion_type : string) :
  List.NoDup (discovered_files m input_dir (extensions conversion_type)).
Proof.
  unfold discovered_files. apply NoDup_flat_map.
  - apply extensions_NoDup.
  - intros ext _. apply glob_recursive_NoDup.
  - intros e1 e2 p H1 H2 Hp1 Hp2.
    apply glob_recursive_spec in Hp1 as [_ Hm1].
    apply glob_recursive_spec in Hp2 as [_ Hm2].
    destruct (extensions_shape _ _ H1) as [L1 _].
    destruct (extensions_shape _ _ H2) as [L2 _].
    apply (fnmatch_star_literal e1 _ L1) in Hm1 as (s1 & E1).
    apply (fnmatch_star_literal e2 _ L2) in Hm2 as (s2 & E2).
    rewrite E1 in E2. apply (same_ending _ _ _ _ E2).
    now apply (extensions_same_length conversion_type).
Qed.

End PathProps.

(** ** Directory creation, further *)

Module MkdirProps.
Import PurePath Py Demo MkdirFacts.

Lemma wf_fs_spec (m : FS) :
  wf_fs m = true <-> forall p k, m !! p = Some k -> is_dir m (parent p) = true.
Proof.
  unfold wf_fs. rewrite forallb_forall. split.
  - intros H p k Hp. apply (H (p, k)).
    now apply list_elem_of_In, elem_of_map_to_list.
  - intros H [p k] Hin. apply list_elem_of_In, elem_of_map_to_list in Hin.
    exact (H p k Hin).
Qed.

Lemma parent_snoc (p : Path) (c : string) : parent (p ++ [c]) = p.
Proof. apply removelast_last. Qed.

Lemma lookup_path_cons (m : FS) (p : Path) :
  p <> [] -> lookup_path m p = m !! p.
Proof. now destruct p. Qed.

Lemma os_mkdir_adds (p : Path) (m m' : FS) :
  os_mkdir p m = inr m' ->
  forall q k, m' !! q = Some k -> m !! q = Some k \/ (k = Dir /\ q = p).
Proof.
  intros H q k Hq. apply os_mkdir_inr in H as (_ & _ & _ & ->).
  destruct (decide (p = q)) as [->|Hne].
  - rewrite lookup_insert_eq in Hq. injection Hq as <-. auto.
  - rewrite lookup_insert_ne in Hq by exact Hne. auto.
Qed.

Lemma mkdir_here_adds (exist_ok : bool) (p : Path) (m m' : FS) :
  mkdir_here exist_ok p m = inr m' ->
  forall q k, m' !! q = Some k -> m !! q = Some k \/ (k = Dir /\ q = p).
Proof.
  unfold mkdir_here. destruct (os_mkdir p m) as [e|m1] eqn:E.
  - destruct (exn_cls e); try discriminate;
      (destruct (exist_ok && is_dir m p); [|discriminate]);
      intros [= <-]; auto.
  - intros [= <-]. now apply os_mkdir_adds.
Qed.

Lemma prefix_of_snoc (q p : Path) (c : string) :
  q `prefix_of` p -> q `prefix_of` p ++ [c].
Proof. intros [k ->]. exists (k ++ [c]). now rewrite (assoc_L (++)). Qed.

(** What a successful [mkdir(parents=True)] adds is the directory and its
    missing ancestors, as directories. *)
Lemma mkdir_parents_adds (rp : list string) :
  forall (exist_ok : bool) (m m' : FS),
    mkdir_parents exist_ok rp m = inr m' ->
    forall q k, m' !! q = Some k ->
      m !! q = Some k \/ (k = Dir /\ q `prefix_of` rev rp).
Proof.
  induction rp as [|c rp IH]; intros exist_ok m m'.
  - destruct exist_ok; [|discriminate]. intros [= <-]. auto.
  - cbn [mkdir_parents]. destruct (os_mkdir (rev (c :: rp)) m) as [e|m1] eqn:E.
    + destruct (exn_cls e) eqn:C;
        try (destruct (exist_ok && is_dir m (rev (c :: rp))); [|discriminate];
             intros [= <-]; now auto).
      destruct (mkdir_parents true rp m) as [e'|m1] eqn:E1; [discriminate|].
      intros Hh q k Hq. destruct (mkdir_here_adds _ _ _ _ Hh q k Hq) as [Hq1|[-> ->]].
      * destruct (IH _ _ _ E1 q k Hq1) as [Hm|[-> Hpre]]; [now left|].
        right. split; [reflexivity|]. simpl. now apply prefix_of_snoc.
      * right. split; reflexivity.
    + intros [= <-] q k Hq. destruct (os_mkdir_adds _ _ _ E q k Hq) as [Hm|[-> ->]].
      * now left.
      * right. split; reflexivity.
Qed.

Lemma mkdir_adds (p : Path) (m m' : FS) :
  mkdir true true p m = inr m' ->
  forall q k, m' !! q = Some k -> m !! q = Some k \/ (k = Dir /\ q `prefix_of` p).
Proof.
  unfold mkdir. intros H q k Hq.
  destruct (mkdir_parents_adds _ _ _ _ H q k Hq) as [Hm|[-> Hpre]]; [now left|].
  right. now rewrite rev_involutive in Hpre.
Qed.

(** A successful [mkdir(parents=True, exist_ok=True)] leaves the directory
    in place, keeps every entry there was, and adds nothing but the
    directory and ancestors of it, as directories. *)
Theorem mkdir_adds_only_ancestors (p : Path) (m m' : FS) :
  mkdir true true p m = inr m' ->
  is_dir m' p = true /\
  m ⊆ m' /\
  forall q k, m' !! q = Some k -> m !! q = Some k \/ (k = Dir /\ q `prefix_of` p).
Proof.
  intros H. destruct (mkdir_settles _ _ _ H) as [[Hd _] Hsub].
  split; [exact Hd|]. split; [exact Hsub|].
  now apply mkdir_adds.
Qed.

Lemma mkdir_adds_only_ancestors_witness :
  is_dir demo_fs_deep ["out"; "a"; "b"] = true /\
  demo_fs ⊆ demo_fs_deep /\
  forall q k, demo_fs_deep !! q = Some k ->
    demo_fs !! q = Some k \/ (k = Dir /\ q `prefix_of` ["out"; "a"; "b"]).
Proof.
  apply (mkdir_adds_only_ancestors ["out"; "a"; "b"] demo_fs demo_fs_deep).
  vm_compute. reflexivity.
Defined.

Lemma os_mkdir_wf (p : Path) (m m' : FS) :
  wf_fs m = true -> os_mkdir p m = inr m' -> wf_fs m' = true.
Proof.
  rewrite !wf_fs_spec. intros Hwf H.
  destruct (os_mkdir_settles _ _ _ H) as [_ Hsub].
  intros q k Hq. destruct (os_mkdir_adds _ _ _ H q k Hq) as [Hm|[-> ->]].
  - apply (is_dir_mono m); [exact Hsub|]. exact (Hwf q k Hm).
  - apply os_mkdir_inr in H as (_ & _ & Hpar & _).
    apply (is_dir_mono m); [exact Hsub|]. unfold is_dir. now rewrite Hpar.
Qed.

Lemma mkdir_here_wf (exist_ok : bool) (p : Path) (m m' : FS) :
  wf_fs m = true -> mkdir_here exist_ok p m = inr m' -> wf_fs m' = true.
Proof.
  intros Hwf. unfold mkdir_here. destruct (os_mkdir p m) as [e|m1] eqn:E.
  - destruct (exn_cls e); try discriminate;
      (destruct (exist_ok && is_dir m p); [|discriminate]);
      intros [= <-]; exact Hwf.
  - intros [= <-]. exact (os_mkdir_wf _ _ _ Hwf E).
Qed.

Lemma mkdir_parents_wf (rp : list string) :
  forall (exist_ok : bool) (m m' : FS),
    wf_fs m = true -> mkdir_parents exist_ok rp m = inr m' -> wf_fs m' = true.
Proof.
  induction rp as [|c rp IH]; intros exist_ok m m' Hwf.
  - destruct exist_ok; [|discriminate]. now intros [= <-].
  - cbn [mkdir_parents]. destruct (os_mkdir (rev (c :: rp)) m) as [e|m1] eqn:E.
    + destruct (exn_cls e) eqn:C;
        try (destruct (exist_ok && is_dir m (rev (c :: rp))); [|discriminate];
             intros [= <-]; exact Hwf).
      destruct (mkdir_parents true rp m) as [e'|m1] eqn:E1; [discriminate|].
      intros Hh. apply (mkdir_here_wf _ _ _ _ (IH _ _ _ Hwf E1) Hh).
    + intros [= <-]. exact (os_mkdir_wf _ _ _ Hwf E).
Qed.

(** In a well-formed file system every ancestor of a directory is a
    directory. *)
Lemma ancestors_are_dirs (m : FS) (p : Path) :
  wf_fs m = true -> is_dir m p = true ->
  forall q, q `prefix_of` p -> is_dir m q = true.
Proof.
  rewrite wf_fs_spec. intros Hwf.
  induction p as [|c p IH] using rev_ind; intros Hd q [k Hk].
  - symmetry in Hk. apply app_eq_nil in Hk as [-> _]. reflexivity.
  - destruct k as [|x k _] using rev_ind.
    + rewrite List.app_nil_r in Hk. now subst q.
    + rewrite (assoc_L (++)) in Hk. apply app_inj_tail in Hk as [Hp _].
      apply IH; [|now exists k].
      unfold is_dir in Hd. destruct (lookup_path m (p ++ [c])) as [[|]|] eqn:E;
        try discriminate.
      rewrite lookup_path_cons in E by now destruct p.
      rewrite <- (parent_snoc p c). exact (Hwf _ _ E).
Qed.

(** [mkdir(parents=True, exist_ok=True)] keeps the file system well-formed,
    and when it returns every ancestor of the directory is a directory. *)
Theorem mkdir_keeps_wf (p : Path) (m m' : FS) :
  wf_fs m = true ->
  mkdir true true p m = inr m' ->
  wf_fs m' = true /\ forall q, q `prefix_of` p -> is_dir m' q = true.
Proof.
  intros Hwf H. assert (Hwf' : wf_fs m' = true) by exact (mkdir_parents_wf _ _ _ _ Hwf H).
  split; [exact Hwf'|].
  apply ancestors_are_dirs; [exact Hwf'|].
  now destruct (mkdir_settles _ _ _ H) as [[Hd _] _].
Qed.

Lemma mkdir_keeps_wf_witness :
  wf_fs demo_fs_deep = true /\
  forall q, q `prefix_of` ["out"; "a"; "b"] -> is_dir demo_fs_deep q = true.
Proof.
  apply (mkdir_keeps_wf ["out"; "a"; "b"] demo_fs demo_fs_deep);
    vm_compute; reflexivity.
Defined.

(** On a well-formed file system, a regular file on the way makes
    [mkdir(parents=True, exist_ok=True)] raise: when the path or one of its
    ancestors is a regular file, the call does not return. *)
Theorem mkdir_fails_with_a_file_in_the_way (p : Path) (m : FS) :
  wf_fs m = true ->
  (exists q, q <> [] /\ q `prefix_of` p /\ m !! q = Some File) ->
  exists e, mkdir true true p m = inl e.
Proof.
  intros Hwf (q & Hq & Hpre & Hf).
  destruct (mkdir true true p m) as [e|m'] eqn:H; [eauto|].
  destruct (mkdir_settles _ _ _ H) as [[Hd _] Hsub].
  pose proof (ancestors_are_dirs m' p (mkdir_parents_wf _ _ _ _ Hwf H) Hd q Hpre)
    as Hanc.
  unfold is_dir in Hanc.
  rewrite lookup_path_cons in Hanc by exact Hq.
  now rewrite (lookup_weaken _ _ _ _ Hf Hsub) in Hanc.
Qed.

Lemma mkdir_fails_with_a_file_in_the_way_witness :
  exists e, mkdir true true ["out"; "a"; "x"] blocked_fs = inl e.
Proof.
  apply (mkdir_fails_with_a_file_in_the_way ["out"; "a"; "x"] blocked_fs).
  - vm_compute. reflexivity.
  - exists ["out"; "a"]. split; [discriminate|]. split.
    + exists ["x"]. reflexivity.
    + vm_compute. reflexivity.
Defined.

End MkdirProps.

(** ** The run, further *)

Module RunProps.
Import PurePath Py Convert Demo.
Import MkdirFacts DiscoveryFacts RunFacts AdapterFacts PoolFacts TraceFacts PipelineFacts.
Import PathProps MkdirProps.

Lemma discovered_files_not_dir (m : FS) (root : Path) (exts : list string) :
  is_dir m root = false -> discovered_files m root exts = [].
Proof.
  intros H. unfold discovered_files.
  induction exts as [|ext exts IH]; [reflexivity|].
  simpl. rewrite IH. unfold glob_recursive. now rewrite H.
Qed.

(** An input root that is missing, or is a regular file, is no error: once
    the output root is made, the globs find nothing and the run prints the
    notice and returns. *)
Theorem missing_input_dir_is_no_error `{L : ImageLibs}
    (as_completed : forall A : Type, list A -> list A)
    (input_dir output_dir : Path) (conversion_type : string) (max_workers : Z)
    (s : state) (m1 : FS) :
  mkdir true true output_dir (fs s) = inr m1 ->
  is_dir m1 input_dir = false ->
  process_directory as_completed input_dir output_dir conversion_type max_workers s
  = (Ret tt,
     State m1
       (trace s ++ EMkdir output_dir
          :: glob_events input_dir (extensions conversion_type)
          ++ [EPrint ("Nenhum arquivo " +:+ conversion_type +:+ " encontrado!")])).
Proof.
  intros Hm Hd. unfold process_directory. apply run_no_files; [exact Hm|].
  now apply discovered_files_not_dir.
Qed.

Lemma missing_input_dir_is_no_error_witness :
  @process_directory demo_libs demo_order ["nowhere"] ["out"] "HEIC" 4%Z demo_state
  = (Ret tt,
     State demo_fs_out
       (trace demo_state ++ EMkdir ["out"]
          :: glob_events ["nowhere"] (extensions "HEIC")
          ++ [EPrint ("Nenhum arquivo " +:+ "HEIC" +:+ " encontrado!")])).
Proof.
  apply (@missing_input_dir_is_no_error demo_libs demo_order ["nowhere"] ["out"]
           "HEIC" 4%Z demo_state demo_fs_out);
    vm_compute; reflexivity.
Defined.

Section AfterPreparation.
Context `{L : ImageLibs}.
Variable as_completed : forall A : Type, list A -> list A.
Variables (exts : list string) (label : string) (convert : Path -> Path -> M bool).
Variables (input_dir output_dir : Path) (max_workers : Z).

(** A run whose preparation loop completes goes on with the pool. *)
Lemma run_after_prepare (s : state) (m1 : FS) (tasks : list (Path * Path)) (s3 : state) :
  mkdir true true output_dir (fs s) = inr m1 ->
  discovered_files m1 input_dir exts <> [] ->
  for_each (prepare_task input_dir output_dir) (discovered_files m1 input_dir exts)
    (State m1 (found_trace input_dir output_dir exts label s
                 (discovered_files m1 input_dir exts)))
  = (Ret tasks, s3) ->
  run_pipeline as_completed exts label convert input_dir output_dir max_workers s
  = match run_pool as_completed convert max_workers tasks s3 with
    | (Raise e, s4) => (Raise e, s4)
    | (Ret counts, s4) =>
        (Ret tt,
         State (fs s4)
           (trace s4
            ++ [EPrint (newline +:+ "Conversão concluída!");
                EPrint ("Convertidas com sucesso: " +:+ pretty (fst counts));
                EPrint ("Falhas na conversão: " +:+ pretty (snd counts))]))
    end.
Proof.
  intros Hm Hne Hl. rewrite run_pipeline_eq, Hm. cbn zeta.
  destruct (discovered_files m1 input_dir exts) as [|f more]; [contradiction|].
  match goal with
  | |- context [State m1 ?tr] =>
      replace tr with (found_trace input_dir output_dir exts label s (f :: more))
  end.
  - now rewrite Hl.
  - unfold found_trace, glob_events. rewrite <- !(assoc_L (++)). reflexivity.
Qed.

Lemma run_pool_nonpositive (tasks : list (Path * Path)) (s : state) :
  (max_workers <= 0)%Z ->
  run_pool as_completed convert max_workers tasks s
  = (Raise (Exn ValueError "max_workers must be greater than 0"), s).
Proof.
  intros H. unfold run_pool, with_as, bind, ThreadPoolExecutor.
  destruct (Z.leb_spec max_workers 0) as [_|Hlt]; [reflexivity | lia].
Qed.

End AfterPreparation.

(** With a pool size of zero or less, a run that has found files makes every
    output directory and then raises the [ValueError] of the pool: nothing
    is submitted and nothing converted. *)
Theorem nonpositive_max_workers_raises `{L : ImageLibs}
    (as_completed : forall A : Type, list A -> list A)
    (input_dir output_dir : Path) (conversion_type : string) (max_workers : Z)
    (s : state) (m1 : FS) (tasks : list (Path * Path)) (s3 : state) :
  mkdir true true output_dir (fs s) = inr m1 ->
  discovered_files m1 input_dir (extensions conversion_type) <> [] ->
  for_each (prepare_task input_dir output_dir)
    (discovered_files m1 input_dir (extensions conversion_type))
    (State m1 (found_trace input_dir output_dir (extensions conversion_type)
                 conversion_type s
                 (discovered_files m1 input_dir (extensions conversion_type))))
  = (Ret tasks, s3) ->
  (max_workers <= 0)%Z ->
  process_directory as_completed input_dir output_dir conversion_type max_workers s
  = (Raise (Exn ValueError "max_workers must be greater than 0"), s3) /\
  Forall (fun t => is_dir (fs s3) (parent (snd t)) = true) tasks /\
  submitted (trace s3) = submitted (trace s).
Proof.
  intros Hm Hne Hl Hmw. split; [|split].
  - unfold process_directory.
    rewrite (run_after_prepare _ _ _ _ _ _ _ s m1 tasks s3 Hm Hne Hl).
    now rewrite run_pool_nonpositive.
  - destruct (prepare_loop_ret _ _ _ _ _ _ Hl) as (_ & _ & Hs & _).
    eapply Forall_impl; [exact Hs|]. now intros t [Hd _].
  - destruct (prepare_loop_ret _ _ _ _ _ _ Hl) as (_ & _ & _ & Htr).
    rewrite Htr. cbn [trace]. unfold found_trace, glob_events.
    rewrite !submitted_app. cbn [submitted].
    rewrite !submitted_app, submitted_globs, submitted_mkdir_events.
    cbn [submitted app]. now rewrite !List.app_nil_r.
Qed.

Lemma nonpositive_max_workers_raises_witness :
  @process_directory demo_libs demo_order ["in"] ["out"] "HEIC" 0%Z demo_state
  = (Raise (Exn ValueError "max_workers must be greater than 0"), demo_prepared) /\
  Forall (fun t => is_dir (fs demo_prepared) (parent (snd t)) = true) demo_tasks /\
  submitted (trace demo_prepared) = submitted (trace demo_state).
Proof.
  apply (@nonpositive_max_workers_raises demo_libs demo_order ["in"] ["out"] "HEIC" 0%Z
           demo_state demo_fs_out demo_tasks demo_prepared).
  - vm_compute. reflexivity.
  - vm_compute. discriminate.
  - vm_compute. reflexivity.
  - lia.
Defined.







(** The HEIC-only script keeps the same account as the merged one: a run
    that finds files and returns has submitted one task per discovered
    file, in order, and prints two counters whose sum is the number of
    submitted tasks. *)
Theorem heic_script_tally `{L : ImageLibs}
    (as_completed : forall A : Type, list A -> list A)
    (input_dir output_dir : Path) (max_workers : Z)
    (s : state) (m1 : FS) (s' : state) :
  (forall (A : Type) (l : list A), Permutation l (as_completed A l)) ->
  mkdir true true output_dir (fs s) = inr m1 ->
  discovered_files m1 input_dir [".heic"; ".HEIC"; ".heif"; ".HEIF"] <> [] ->
  heic_process_directory as_completed input_dir output_dir max_workers s = (Ret tt, s') ->
  exists successful failed events,
    trace s'
    = trace s ++ events
      ++ [EPrint (newline +:+ "Conversão concluída!");
          EPrint ("Convertidas com sucesso: " +:+ pretty successful);
          EPrint ("Falhas na conversão: " +:+ pretty failed)] /\
    successful + failed = length (submitted events) /\
    map fst (submitted events)
    = discovered_files m1 input_dir [".heic"; ".HEIC"; ".heif"; ".HEIF"].
Proof.
  intros Hperm Hm Hne Hrun. unfold heic_process_directory in Hrun.
  exact (run_complete as_completed _ _ _ _ _ _
           (guarded_prints_only heic_try heic_try_silent) Hperm s m1 s' Hm Hne Hrun).
Qed.

Lemma heic_script_tally_witness :
  exists successful failed events,
    trace demo_heic_final
    = trace demo_state ++ events
      ++ [EPrint (newline +:+ "Conversão concluída!");
          EPrint ("Convertidas com sucesso: " +:+ pretty successful);
          EPrint ("Falhas na conversão: " +:+ pretty failed)] /\
    successful + failed = length (submitted events) /\
    map fst (submitted events)
    = discovered_files demo_fs_out ["in"] [".heic"; ".HEIC"; ".heif"; ".HEIF"].
Proof.
  apply (@heic_script_tally demo_libs demo_order ["in"] ["out"] 4%Z
           demo_state demo_fs_out demo_heic_final).
  - intros A l. apply Permutation_rev.
  - vm_compute. reflexivity.
  - vm_compute. discriminate.
  - vm_compute. reflexivity.
Defined.

(** The CR2-only script keeps the same account too; it globs upper case
    first, so it submits the files the merged script would, in another
    order. *)
Theorem cr2_script_tally `{L : ImageLibs}
    (as_completed : forall A : Type, list A -> list A)
    (input_dir output_dir : Path) (max_workers : Z)
    (s : state) (m1 : FS) (s' : state) :
  (forall (A : Type) (l : list A), Permutation l (as_completed A l)) ->
  mkdir true true output_dir (fs s) = inr m1 ->
  discovered_files m1 input_dir [".CR2"; ".cr2"] <> [] ->
  cr2_process_directory as_completed input_dir output_dir max_workers s = (Ret tt, s') ->
  exists successful failed events,
    trace s'
    = trace s ++ events
      ++ [EPrint (newline +:+ "Conversão concluída!");
          EPrint ("Convertidas com sucesso: " +:+ pretty successful);
          EPrint ("Falhas na conversão: " +:+ pretty failed)] /\
    successful + failed = length (submitted events) /\
    map fst (submitted events) = discovered_files m1 input_dir [".CR2"; ".cr2"] /\
    Permutation (map fst (submitted events))
      (discovered_files m1 input_dir (extensions "CR2")).
Proof.
  intros Hperm Hm Hne Hrun. unfold cr2_process_directory in Hrun.
  destruct (run_complete as_completed _ _ _ _ _ _
              (guarded_prints_only cr2_try cr2_try_silent) Hperm s m1 s' Hm Hne Hrun)
    as (a & b & events & Htr & Hsum & Hfst).
  exists a, b, events. repeat split; try assumption.
  rewrite Hfst. unfold discovered_files. simpl. rewrite !List.app_nil_r.
  apply Permutation_app_comm.
Qed.

Lemma cr2_script_tally_witness :
  exists successful failed events,
    trace raw_final
    = trace raw_state ++ events
      ++ [EPrint (newline +:+ "Conversão concluída!");
          EPrint ("Convertidas com sucesso: " +:+ pretty successful);
          EPrint ("Falhas na conversão: " +:+ pretty failed)] /\
    successful + failed = length (submitted events) /\
    map fst (submitted events) = discovered_files raw_fs_out ["in"] [".CR2"; ".cr2"] /\
    Permutation (map fst (submitted events))
      (discovered_files raw_fs_out ["in"] (extensions "CR2")).
Proof.
  apply (@cr2_script_tally demo_libs demo_order ["in"] ["out"] 4%Z
           raw_state raw_fs_out raw_final).
  - intros A l. apply Permutation_rev.
  - vm_compute. reflexivity.
  - vm_compute. discriminate.
  - vm_compute. reflexivity.
Defined.

Lemma prefix_of_app_cases (q o y : Path) :
  q `prefix_of` o ++ y -> q `prefix_of` o \/ o `prefix_of` q.
Proof.
  revert o. induction q as [|c q IH]; intros o [k Hk].
  - left. now exists o.
  - destruct o as [|d o].
    + right. now exists (c :: q).
    + simpl in Hk. injection Hk as -> Hk.
      destruct (IH o (ex_intro _ k Hk)) as [[k1 ->]|[k2 ->]].
      * left. now exists k1.
      * right. now exists k2.
Qed.

(** The preparation loop, whether it completes or raises, keeps every entry
    there was, with its kind, and every entry it adds is a directory that
    is an ancestor of the output root, the output root itself or below it:
    it writes no file. *)
Theorem preparation_adds_output_directories_only
    (input_dir output_dir : Path) (files : list Path) :
  forall s r s',
    for_each (prepare_task input_dir output_dir) files s = (r, s') ->
    fs s ⊆ fs s' /\
    forall q k, fs s' !! q = Some k ->
      fs s !! q = Some k \/
      (k = Dir /\ (q `prefix_of` output_dir \/ output_dir `prefix_of` q)).
Proof.
  induction files as [|f files IH]; intros s r s'; simpl.
  - intros [= <- <-]. split; [reflexivity | auto].
  - unfold bind at 1. rewrite prepare_task_eq.
    destruct (output_path_of input_dir output_dir f) as [out|] eqn:Eo.
    2:{ intros [= <- <-]. split; [reflexivity | auto]. }
    destruct (mkdir true true (parent out) (fs s)) as [e|m1] eqn:Em.
    { intros [= <- <-]. split; [reflexivity | auto]. }
    unfold bind at 1.
    destruct (for_each _ files _) as [r1 s2] eqn:El.
    apply IH in El as [Hsub2 Hnew2]. cbn [fs] in Hsub2, Hnew2.
    destruct (mkdir_settles _ _ _ Em) as [_ Hsub1].
    pose proof (mkdir_adds _ _ _ Em) as Hnew1.
    intros Hr.
    assert (Hfs : fs s' = fs s2)
      by (destruct r1; cbv [ret] in Hr; injection Hr as <- <-; reflexivity).
    rewrite Hfs. split; [now transitivity m1|].
    intros q k Hq. destruct (Hnew2 q k Hq) as [Hq1|Hd]; [|now right].
    destruct (Hnew1 q k Hq1) as [Hq0|[-> Hpre]]; [now left|].
    right. split; [reflexivity|].
    apply output_path_of_shape in Eo as (rel & _ & _ & ->).
    rewrite (assoc_L (++)), parent_snoc in Hpre.
    now apply prefix_of_app_cases in Hpre.
Qed.

Lemma preparation_adds_output_directories_only_witness :
  fs demo_found ⊆ fs demo_prepared /\
  forall q k, fs demo_prepared !! q = Some k ->
    fs demo_found !! q = Some k \/
    (k = Dir /\ (q `prefix_of` ["out"] \/ ["out"] `prefix_of` q)).
Proof.
  apply (preparation_adds_output_directories_only ["in"] ["out"]
           (discovered_files demo_fs_out ["in"] (extensions "HEIC"))
           demo_found (Ret demo_tasks) demo_prepared).
  vm_compute. reflexivity.
Defined.

End RunProps.

(** ** The merged script and the HEIC-only script *)

Module SiblingProps.
Import PurePath Py Convert Demo.
Import RunFacts DiscoveryFacts.

Lemma uniform_intro {A} (c : M A) :
  (forall m tr, exists r m' delta,
      c (State m []) = (r, State m' delta) /\
      c (State m tr) = (r, State m' (tr ++ delta))) ->
  uniform c.
Proof.
  intros H m tr. destruct (H m tr) as (r & m' & delta & E0 & E).
  now rewrite E, E0.
Qed.

Lemma uniform_elim {A} (c : M A) (m : FS) (tr : list event) :
  uniform c ->
  exists r m' delta,
    c (State m []) = (r, State m' delta) /\
    forall tr', c (State m tr') = (r, State m' (tr' ++ delta)).
Proof.
  intros H. destruct (c (State m [])) as [r [m' delta]] eqn:E0.
  exists r, m', delta. split; [reflexivity|].
  intros tr'. now rewrite (H m tr'), E0.
Qed.

Lemma uniform_ret {A} (a : A) : uniform (ret a).
Proof. intros m tr. unfold ret. simpl. now rewrite List.app_nil_r. Qed.

Lemma uniform_raise {A} (e : exn) : uniform (@raise A e).
Proof. intros m tr. unfold raise. simpl. now rewrite List.app_nil_r. Qed.

Lemma uniform_log (ev : event) : uniform (log ev).
Proof. intros m tr. reflexivity. Qed.

Lemma uniform_on_fs {A} (op : FS -> outcome A * FS) : uniform (on_fs op).
Proof.
  intros m tr. unfold on_fs. simpl. destruct (op m) as [r m']. simpl.
  now rewrite List.app_nil_r.
Qed.

Lemma uniform_bind {A B} (c : M A) (k : A -> M B) :
  uniform c -> (forall a, uniform (k a)) -> uniform (bind c k).
Proof.
  intros Hc Hk. apply uniform_intro. intros m tr.
  destruct (uniform_elim c m tr Hc) as (r & m1 & d1 & E0 & E).
  unfold bind. rewrite E0, (E tr). destruct r as [a|e].
  - destruct (uniform_elim (k a) m1 tr (Hk a)) as (r2 & m2 & d2 & _ & E2).
    exists r2, m2, (d1 ++ d2). rewrite (E2 d1), (E2 (tr ++ d1)).
    now rewrite (assoc_L (++)).
  - eauto.
Qed.

Lemma uniform_with_as {R A} (enter : M R) (exit_ : R -> M unit) (body : R -> M A) :
  uniform enter -> (forall r, uniform (exit_ r)) -> (forall r, uniform (body r)) ->
  uniform (with_as enter exit_ body).
Proof.
  intros He Hx Hb. unfold with_as. apply uniform_bind; [exact He|].
  intros r. apply uniform_intro. intros m tr.
  destruct (uniform_elim (body r) m tr (Hb r)) as (rb & m1 & d1 & E0 & E).
  rewrite E0, (E tr).
  destruct (uniform_elim (exit_ r) m1 tr (Hx r)) as (rx & m2 & d2 & _ & E2).
  rewrite (E2 d1), (E2 (tr ++ d1)), <- (assoc_L (++)).
  destruct rb as [a|e]; destruct rx as [u|e']; eauto.
Qed.

Lemma uniform_try_except {A} (body : M A) (handler : exn -> M A) :
  uniform body -> (forall e, uniform (handler e)) ->
  uniform (try_except_Exception body handler).
Proof.
  intros Hb Hh. apply uniform_intro. intros m tr. unfold try_except_Exception.
  destruct (uniform_elim body m tr Hb) as (rb & m1 & d1 & E0 & E).
  rewrite E0, (E tr). destruct rb as [a|e]; [eauto|].
  destruct (is_Exception (exn_cls e)); [|eauto].
  destruct (uniform_elim (handler e) m1 tr (Hh e)) as (r2 & m2 & d2 & _ & E2).
  rewrite (E2 d1), (E2 (tr ++ d1)), <- (assoc_L (++)). eauto.
Qed.

Lemma uniform_for_each {A B} (f : A -> M B) (xs : list A) :
  (forall x, uniform (f x)) -> uniform (for_each f xs).
Proof.
  intros Hf. induction xs as [|x xs IH]; simpl.
  - apply uniform_ret.
  - apply uniform_bind; [apply Hf|]. intros y.
    apply uniform_bind; [exact IH|]. intros ys. apply uniform_ret.
Qed.

Lemma uniform_Path_mkdir (p : Path) : uniform (Path_mkdir p).
Proof.
  unfold Path_mkdir. apply uniform_bind; [apply uniform_log|].
  intros _. apply uniform_on_fs.
Qed.

Lemma uniform_prepare_task (input_dir output_dir f : Path) :
  uniform (prepare_task input_dir output_dir f).
Proof.
  unfold prepare_task. apply uniform_bind.
  - unfold or_ValueError. destruct (output_path_of input_dir output_dir f);
      [apply uniform_ret | apply uniform_raise].
  - intros out. apply uniform_bind; [apply uniform_Path_mkdir|].
    intros _. apply uniform_ret.
Qed.

Lemma uniform_tally (completed : list (future * outcome bool)) :
  forall a f, uniform (tally completed a f).
Proof.
  induction completed as [|[fut r] completed IH]; intros a f; cbn [tally].
  - apply uniform_ret.
  - apply uniform_bind.
    + destruct r; [apply uniform_ret | apply uniform_raise].
    + intros success. apply uniform_bind; [apply uniform_log|].
      intros _. apply IH.
Qed.

Lemma uniform_submit_all (tasks : list (Path * Path)) :
  forall n, uniform (submit_all n tasks).
Proof.
  induction tasks as [|[i o] tasks IH]; intros n; cbn [submit_all].
  - apply uniform_ret.
  - apply uniform_bind; [apply uniform_log|]. intros _.
    apply uniform_bind; [apply IH|]. intros futs. apply uniform_ret.
Qed.

Lemma uniform_run_worker (convert : Path -> Path -> M bool) (fut : future) :
  (forall i o, uniform (convert i o)) -> uniform (run_worker convert fut).
Proof.
  intros Hc. apply uniform_intro. intros m tr. unfold run_worker.
  destruct (uniform_elim _ m tr (Hc (fut_input fut) (fut_output fut)))
    as (r & m1 & d1 & E0 & E).
  rewrite E0, (E tr). eauto.
Qed.

Section Sibling.
Context `{L : ImageLibs}.
Variable as_completed : forall A : Type, list A -> list A.

Lemma uniform_report (i : Path) (e : exn) : uniform (report i e).
Proof.
  unfold report. apply uniform_bind; [apply uniform_log|].
  intros _. apply uniform_ret.
Qed.

Lemma uniform_convert_heic (i o : Path) : uniform (convert_heic_to_png i o).
Proof.
  unfold convert_heic_to_png. apply uniform_try_except; [|apply uniform_report].
  unfold heic_try. apply uniform_bind; [|intros; apply uniform_ret].
  apply uniform_with_as; intros; apply uniform_on_fs.
Qed.

Lemma uniform_run_pool (convert : Path -> Path -> M bool) (max_workers : Z)
    (tasks : list (Path * Path)) :
  (forall i o, uniform (convert i o)) ->
  uniform (run_pool as_completed convert max_workers tasks).
Proof.
  intros Hc. unfold run_pool. apply uniform_with_as.
  - unfold ThreadPoolExecutor. destruct (max_workers <=? 0)%Z;
      [apply uniform_raise | apply uniform_log].
  - intros _. apply uniform_log.
  - intros _. apply uniform_bind; [apply uniform_submit_all|]. intros futs.
    apply uniform_bind.
    + apply uniform_for_each. intros fut. now apply uniform_run_worker.
    + intros completed. apply uniform_with_as.
      * apply uniform_log.
      * intros _. apply uniform_log.
      * intros _. apply uniform_tally.
Qed.

(** The part of the pipeline that follows the line with the number of files
    found. *)
Local Abbreviation after_found convert input_dir output_dir max_workers files :=
  (do conversion_tasks <- for_each (prepare_task input_dir output_dir) files;
   do counts <- run_pool as_completed convert max_workers conversion_tasks;
   print (newline +:+ "Conversão concluída!") ;;
   print ("Convertidas com sucesso: " +:+ pretty (fst counts)) ;;
   print ("Falhas na conversão: " +:+ pretty (snd counts))).

Lemma uniform_after_found (convert : Path -> Path -> M bool)
    (input_dir output_dir : Path) (max_workers : Z) (files : list Path) :
  (forall i o, uniform (convert i o)) ->
  uniform (after_found convert input_dir output_dir max_workers files).
Proof.
  intros Hc. apply uniform_bind.
  - apply uniform_for_each. intros f. apply uniform_prepare_task.
  - intros tasks. apply uniform_bind; [now apply uniform_run_pool|].
    intros counts. unfold print.
    repeat (apply uniform_bind; [apply uniform_log | intros _]).
    apply uniform_log.
Qed.

Lemma run_pipeline_via_found (exts : list string) (label : string)
    (convert : Path -> Path -> M bool)
    (input_dir output_dir : Path) (max_workers : Z) (s : state) :
  run_pipeline as_completed exts label convert input_dir output_dir max_workers s
  = match mkdir true true output_dir (fs s) with
    | inl e => (Raise e, State (fs s) (trace s ++ [EMkdir output_dir]))
    | inr m1 =>
        let tr1 := (trace s ++ [EMkdir output_dir]) ++ glob_events input_dir exts in
        match discovered_files m1 input_dir exts with
        | [] =>
            (Ret tt,
             State m1 (tr1 ++ [EPrint ("Nenhum arquivo " +:+ label +:+ " encontrado!")]))
        | f :: more =>
            after_found convert input_dir output_dir max_workers (f :: more)
              (State m1
                 (tr1 ++ [EPrint ("Encontrados " +:+ pretty (length (f :: more))
                                  +:+ " arquivos " +:+ label)]))
        end
    end.
Proof.
  unfold run_pipeline. unfold bind at 1. rewrite Path_mkdir_eq.
  destruct (mkdir true true output_dir (fs s)) as [e|m1]; [reflexivity|].
  unfold bind at 1. rewrite discover_spec. cbn [fs trace].
  destruct (discovered_files m1 input_dir exts) as [|f more]; reflexivity.
Qed.

(** Two runs of the pipeline that differ in the format label only have the
    same outcome and leave the same file system; their traces are the same
    when the output root cannot be made, and otherwise differ in the one
    line that carries the label. *)
Lemma run_pipeline_label (exts : list string) (l1 l2 : string)
    (convert : Path -> Path -> M bool)
    (input_dir output_dir : Path) (max_workers : Z) (s : state) :
  (forall i o, uniform (convert i o)) ->
  let r1 := run_pipeline as_completed exts l1 convert input_dir output_dir max_workers s in
  let r2 := run_pipeline as_completed exts l2 convert input_dir output_dir max_workers s in
  fst r1 = fst r2 /\
  fs (snd r1) = fs (snd r2) /\
  (trace (snd r1) = trace (snd r2) \/
   differ_in_one_line (trace (snd r1)) (trace (snd r2))
     ("Nenhum arquivo " +:+ l1 +:+ " encontrado!")
     ("Nenhum arquivo " +:+ l2 +:+ " encontrado!") \/
   exists n : nat,
     differ_in_one_line (trace (snd r1)) (trace (snd r2))
       ("Encontrados " +:+ pretty n +:+ " arquivos " +:+ l1)
       ("Encontrados " +:+ pretty n +:+ " arquivos " +:+ l2)).
Proof.
  intros Hc r1 r2. subst r1 r2. rewrite !run_pipeline_via_found.
  destruct (mkdir true true output_dir (fs s)) as [e|m1].
  { cbn [fst snd fs trace]. auto. }
  cbn zeta. set (tr1 := (trace s ++ [EMkdir output_dir]) ++ _).
  destruct (discovered_files m1 input_dir exts) as [|f more].
  { cbn [fst snd fs trace]. split; [reflexivity|].
    split; [reflexivity|]. right. left. exists tr1, []. auto. }
  pose proof (uniform_after_found convert input_dir output_dir max_workers
                (f :: more) Hc) as Hu.
  destruct (uniform_elim _ m1 [] Hu) as (r & m' & delta & _ & E).
  rewrite !E. cbn [fst snd fs trace]. split; [reflexivity|].
  split; [reflexivity|]. right. right. exists (length (f :: more)).
  exists tr1, delta. rewrite <- !(assoc_L (++)). auto.
Qed.

End Sibling.

(** The HEIC-only script is the merged script called with ['HEIC']: on the
    same world both have the same outcome and leave the same file system,
    and their traces are equal, or differ only in that the one line naming
    the format says [HEIC/HEIF] for [HEIC]. *)
Theorem heic_script_is_merged_script `{L : ImageLibs}
    (as_completed : forall A : Type, list A -> list A)
    (input_dir output_dir : Path) (max_workers : Z) (s : state) :
  let r1 := process_directory as_completed input_dir output_dir "HEIC" max_workers s in
  let r2 := heic_process_directory as_completed input_dir output_dir max_workers s in
  fst r1 = fst r2 /\
  fs (snd r1) = fs (snd r2) /\
  (trace (snd r1) = trace (snd r2) \/
   differ_in_one_line (trace (snd r1)) (trace (snd r2))
     "Nenhum arquivo HEIC encontrado!" "Nenhum arquivo HEIC/HEIF encontrado!" \/
   exists n : nat,
     differ_in_one_line (trace (snd r1)) (trace (snd r2))
       ("Encontrados " +:+ pretty n +:+ " arquivos HEIC")
       ("Encontrados " +:+ pretty n +:+ " arquivos HEIC/HEIF")).
Proof.
  exact (run_pipeline_label as_completed [".heic"; ".HEIC"; ".heif"; ".HEIF"]
           "HEIC" "HEIC/HEIF" convert_heic_to_png input_dir output_dir max_workers s
           uniform_convert_heic).
Qed.

End SiblingProps.
